(** * IMIS client: a shallow embedding of [objeto_imis_client.py]

    The client authenticates against a remote API, then retrieves a
    paginated query result and flattens the vendor's nested JSON rows into
    plain records.  The HTTP transport and the remote service are the
    environment: they appear here as the stream of outcomes that the
    successive calls of [requests.request] will deliver. *)

From stdpp Require Import base option list strings gmap pretty.
From Stdlib Require Import ZArith Lia.

Set Warnings "-register-all".

Local Open Scope string_scope.
Local Open Scope Z_scope.
Local Open Scope list_scope.

(** ** Python values *)

(** What [response.json()] can produce.  A decoded object is a Python
    [dict]: its entries are kept in insertion order, keys distinct.
    Numbers are the integers; JSON numbers with a fraction are outside the
    model. *)
Inductive json : Type :=
| JNull
| JBool (b : bool)
| JNum (n : Z)
| JStr (s : string)
| JArr (xs : list json)
| JObj (kvs : list (string * json)).

(** The exceptions that the code raises or meets.  [KeyError] carries the
    missing key, the others that carry a string carry their message. *)
Inductive exn : Type :=
| ValueError (msg : string)
| Exception (msg : string)
| AttributeError
| TypeError
| KeyError (key : string)
| JSONDecodeError (msg : string)
| RecursionError.

(** A computation either returns or raises. *)
Inductive outcome (A : Type) : Type :=
| Ret (a : A)
| Raise (e : exn).
Arguments Ret {A} a.
Arguments Raise {A} e.

Definition obind {A B} (m : outcome A) (k : A → outcome B) : outcome B :=
  match m with
  | Ret a => k a
  | Raise e => Raise e
  end.

Global Instance outcome_ret : MRet outcome := λ A a, Ret a.
Global Instance outcome_bind : MBind outcome := λ A B k m, obind m k.

(** [bool(v)]: Python truthiness. *)
Definition truthy (v : json) : bool :=
  match v with
  | JNull => false
  | JBool b => b
  | JNum n => negb (n =? 0)
  | JStr s => negb (String.eqb s "")
  | JArr xs => match xs with [] => false | _ => true end
  | JObj kvs => match kvs with [] => false | _ => true end
  end.

(** Lookup in a dict: the entry of key [k]. *)
Fixpoint dict_lookup (k : string) (kvs : list (string * json)) : option json :=
  match kvs with
  | [] => None
  | (k', v) :: rest => if String.eqb k k' then Some v else dict_lookup k rest
  end.

(** [v.get(k, dflt)]: only a dict has the method. *)
Definition py_get (v : json) (k : string) (dflt : json) : outcome json :=
  match v with
  | JObj kvs => Ret (default dflt (dict_lookup k kvs))
  | _ => Raise AttributeError
  end.

(** [v[k]] with a string key: [KeyError] on a dict without the key,
    [TypeError] on a list, a string or a scalar. *)
Definition py_getitem (v : json) (k : string) : outcome json :=
  match v with
  | JObj kvs =>
      match dict_lookup k kvs with
      | Some x => Ret x
      | None => Raise (KeyError k)
      end
  | _ => Raise TypeError
  end.

(** [for x in v]: a list yields its elements, a dict its keys, a string
    its characters; a scalar is not iterable. *)
Definition py_iter (v : json) : outcome (list json) :=
  match v with
  | JArr xs => Ret xs
  | JObj kvs => Ret (map (λ kv, JStr (fst kv)) kvs)
  | JStr s => Ret (map (λ c, JStr (String c EmptyString)) (String.list_ascii_of_string s))
  | _ => Raise TypeError
  end.

(** The keys of the flattened record.  Python hashes [True] and [1] (and
    [False] and [0]) to the same key; a list or a dict is unhashable. *)
Inductive pykey : Type :=
| KNone
| KInt (n : Z)
| KStr (s : string).

Global Instance pykey_eq_dec : EqDecision pykey.
Proof. solve_decision. Defined.

Global Instance pykey_countable : Countable pykey.
Proof.
  refine (inj_countable'
    (λ k, match k with
          | KNone => inl ()
          | KInt n => inr (inl n)
          | KStr s => inr (inr s)
          end)
    (λ x, match x with
          | inl _ => KNone
          | inr (inl n) => KInt n
          | inr (inr s) => KStr s
          end) _).
  intros []; reflexivity.
Defined.

Definition py_hashable (v : json) : outcome pykey :=
  match v with
  | JNull => Ret KNone
  | JBool b => Ret (KInt (if b then 1 else 0))
  | JNum n => Ret (KInt n)
  | JStr s => Ret (KStr s)
  | JArr _ | JObj _ => Raise TypeError
  end.

(** A flattened record: field name to value. *)
Abbreviation record := (gmap pykey json).

(** ** Response flattening *)

(** One turn of the loop of [flatten_record]: [rec[value["Name"]] = ...]. *)
Definition flatten_pair (rec : record) (value : json) : outcome record :=
  v ← py_get value "Value" JNull;
  match v with
  | JObj _ =>
      inner ← py_getitem value "Value";
      x ← py_get inner "$value" inner;
      name ← py_getitem value "Name";
      key ← py_hashable name;
      Ret (<[key := x]> rec)
  | _ =>
      x ← py_get value "Value" JNull;
      name ← py_getitem value "Name";
      key ← py_hashable name;
      Ret (<[key := x]> rec)
  end.

Fixpoint flatten_pairs (rec : record) (value_pairs : list json) : outcome record :=
  match value_pairs with
  | [] => Ret rec
  | value :: rest =>
      rec' ← flatten_pair rec value;
      flatten_pairs rec' rest
  end.

Definition flatten_record (row : json) : outcome record :=
  props ← py_getitem row "Properties";
  vals ← py_getitem props "$values";
  value_pairs ← py_iter vals;
  flatten_pairs ∅ value_pairs.

Fixpoint flatten_rows (rows : list json) : outcome (list record) :=
  match rows with
  | [] => Ret []
  | item :: rest =>
      r ← flatten_record item;
      rs ← flatten_rows rest;
      Ret (r :: rs)
  end.

Definition simplify_data (data : json) : outcome (list record) :=
  items ← py_get data "Items" (JObj []);
  vals ← py_get items "$values" (JArr []);
  rows ← py_iter vals;
  flatten_rows rows.

(** ** The environment *)

(** The body of a response that passed [raise_for_status], by what
    [response.json()] does on it: JSON text that decodes to a value; text
    that is not JSON, on which it raises its [JSONDecodeError] with the
    message [err]; JSON text with an integer of more digits than Python
    converts, on which the decoder raises a plain [ValueError]; JSON text
    nested too deep, on which it raises [RecursionError]. *)
Inductive body : Type :=
| Json (j : json)
| Malformed (err : string)
| TooManyDigits (err : string)
| TooDeep.

Record response : Type := Response { response_body : body }.

(** What one call of [requests.request] followed by [raise_for_status]
    does: a response, or a [RequestException] with its text (transport
    failure or error status). *)
Inductive http_outcome : Type :=
| HttpOk (r : response)
| HttpFail (e : string).

Record request : Type := Request {
  method : string;
  url : string;
  data : option (list (string * string));
  headers : option (list (string * string));
  params : option (list (string * string))
}.

(** The two message channels of the client, [log_error] and [log_info];
    each prints its message after the mark of the channel. *)
Inductive log_entry : Type :=
| LogError (message : string)
| LogInfo (message : string).

(** The world outside the client: the outcomes that the next HTTP calls
    will meet, the requests sent so far and the messages printed so far. *)
Record world : Type := World {
  pending : nat → http_outcome;
  sent : list request;
  console : list log_entry
}.

(** Stateful, fallible code: a raise keeps the effects made before it. *)
Definition M (A : Type) : Type := world → outcome A * world.

Global Instance M_ret : MRet M := λ A a w, (Ret a, w).
Global Instance M_bind : MBind M := λ A B k m w,
  match m w with
  | (Ret a, w') => k a w'
  | (Raise e, w') => (Raise e, w')
  end.

Definition raise {A} (e : exn) : M A := λ w, (Raise e, w).

Definition log_error (message : string) : M () := λ w,
  (Ret (), World (pending w) (sent w) (console w ++ [LogError message])).

Definition log_info (message : string) : M () := λ w,
  (Ret (), World (pending w) (sent w) (console w ++ [LogInfo message])).

(** The call [requests.request(...)] with [raise_for_status()]: the
    request goes out and the next pending outcome comes back. *)
Definition requests_request (req : request) : M http_outcome := λ w,
  (Ret (pending w 0%nat),
   World (λ n, pending w (S n)) (sent w ++ [req]) (console w)).

Definition response_json (r : response) : outcome json :=
  match response_body r with
  | Json j => Ret j
  | Malformed err => Raise (JSONDecodeError err)
  | TooManyDigits err => Raise (ValueError err)
  | TooDeep => Raise RecursionError
  end.

(** ** The client *)

Record IMISClientConfig : Type := Config {
  BASE_URL : option string;
  USERNAME : option string;
  PWD : option string
}.

Record IMISClient : Type := Client {
  base_url : string;
  token : string
}.

(** [not x] on a configuration attribute: absent or empty. *)
Definition py_not (x : option string) : bool :=
  match x with
  | None => true
  | Some s => String.eqb s ""
  end.

(** The result of [process_response]; as a dict of three entries it is
    always truthy. *)
Record page : Type := Page {
  items : list record;
  has_next : json;
  count : json
}.

(** The variables of the loop of [fetch_iqa]. *)
Record loop_state : Type := LoopState {
  ls_items : list record;
  ls_has_next : json;
  ls_offset : Z
}.

(** ** The flattening rule, in the words of the specification *)

(** The value that a pair contributes: the [$value] member of a structured
    [Value] (the whole object when it has none), any other [Value] as it
    is. *)
Definition field_value (v : json) : json :=
  match v with
  | JObj kvs => default v (dict_lookup "$value" kvs)
  | _ => v
  end.

(** [value] is a [{Name, Value}] pair with this name and this value. *)
Definition name_value_pair (value : json) (nv : string * json) : Prop :=
  ∃ kvs, value = JObj kvs ∧
         dict_lookup "Name" kvs = Some (JStr (fst nv)) ∧
         dict_lookup "Value" kvs = Some (snd nv).

(** The mapping built from the pairs, each one written over what the
    earlier ones left. *)
Definition record_of (pairs : list (string * json)) (rec : record) : record :=
  foldl (λ r nv, <[KStr (fst nv) := field_value (snd nv)]> r) rec pairs.

(** The three attributes that [__init__] validates, and the words with
    which its messages name them. *)
Inductive config_field : Type := FieldBaseUrl | FieldUsername | FieldPassword.

Definition field_of (config : IMISClientConfig) (f : config_field) : option string :=
  match f with
  | FieldBaseUrl => BASE_URL config
  | FieldUsername => USERNAME config
  | FieldPassword => PWD config
  end.

Definition field_label (f : config_field) : string :=
  match f with
  | FieldBaseUrl => "Base URL"
  | FieldUsername => "Username"
  | FieldPassword => "Password"
  end.

(** The failure that [authenticate] announces for a missing token. *)
Definition is_authentication_error {A} (o : outcome A) : bool :=
  match o with
  | Raise (Exception msg) => String.eqb msg "Failed to authenticate with the API"
  | _ => false
  end.

(** ** Concrete servers and bodies, for the examples *)

(** A world whose first HTTP calls meet [responses], and every later one
    a refused connection. *)
Definition world_of (responses : list http_outcome) : world :=
  World (λ n, nth n responses (HttpFail "connection refused")) [] [].

Definition ok_json (j : json) : http_outcome := HttpOk (Response (Json j)).

Definition pair_of (name : string) (v : json) : json :=
  JObj [("Name", JStr name); ("Value", v)].

Definition row_of (pairs : list json) : json :=
  JObj [("Properties", JObj [("$values", JArr pairs)])].

Definition page_of (rows : list json) (hn : bool) (total : Z) : json :=
  JObj [("HasNext", JBool hn); ("TotalCount", JNum total);
        ("Items", JObj [("$values", JArr rows)])].

Definition demo_config : IMISClientConfig :=
  Config (Some "https://demo123.imiscloud.com") (Some "user") (Some "secret").

Definition demo_client : IMISClient :=
  Client "https://demo123.imiscloud.com" "Bearer xyz".

Definition row_AB : json :=
  row_of [pair_of "A" (JStr "x"); pair_of "B" (JObj [("$value", JNum 5)])].

Definition row_C (n : Z) : json := row_of [pair_of "C" (JNum n)].

(** A stand-in for Python's [repr] of a list or a dict in the examples,
    none of which formats one. *)
Definition demo_repr : json → string := λ _, "[...]".

(** Two pages: two rows with more to come, then one row and the end. *)
Definition two_pages : world :=
  world_of [ok_json (page_of [row_AB; row_C 1] true 3);
            ok_json (page_of [row_C 2] false 3)].


(** Pages of two rows each, always with more to come. *)
Definition three_full_pages : world :=
  world_of [ok_json (page_of [row_C 1; row_C 2] true 9);
            ok_json (page_of [row_C 3; row_C 4] true 9);
            ok_json (page_of [row_C 5; row_C 6] true 9)].

(** The records of [row_AB] and of [row_C n]. *)
Definition rec_AB : record := <[KStr "A" := JStr "x"]> (<[KStr "B" := JNum 5]> ∅).
Definition rec_C (n : Z) : record := <[KStr "C" := JNum n]> ∅.

(** One page with more to come, then a refused connection. *)
Definition page_then_failure : world :=
  world_of [ok_json (page_of [row_AB; row_C 1] true 3)].


(** A whole session: the token, then two pages. *)
Definition session : world :=
  world_of [ok_json (JObj [("access_token", JStr "xyz")]);
            ok_json (page_of [row_AB; row_C 1] true 3);
            ok_json (page_of [row_C 2] false 3)].




(** One page that is the last. *)
Definition one_page : world :=
  world_of [ok_json (page_of [row_AB; row_C 1] false 2)].

Section Client.

(** [str] of a list or of a dict, as an f-string shows it: Python's
    [repr], which is not part of the repository. *)
Variable repr_container : json → string.

(** [f"{v}"]: the text of a value inside an f-string. *)
Definition py_str (v : json) : string :=
  match v with
  | JNull => "None"
  | JBool true => "True"
  | JBool false => "False"
  | JNum n => pretty n
  | JStr s => s
  | JArr _ | JObj _ => repr_container v
  end.

Definition make_request (method url : string)
    (data headers params : option (list (string * string))) : M (option response) :=
  o ← requests_request (Request method url data headers params);
  match o with
  | HttpOk r => mret (Some r)
  | HttpFail e => _ ← log_error ("Request failed: " +:+ e); mret None
  end.

Definition request_token (base_url username password : string) : M string :=
  let data := [("grant_type", "password"); ("username", username); ("password", password)] in
  let headers := [("Content-Type", "application/x-www-form-urlencoded")] in
  let token_url := base_url +:+ "/token" in
  response ← make_request "POST" token_url (Some data) (Some headers) None;
  match response with
  | None => raise AttributeError
  | Some r =>
      match (j ← response_json r; py_get j "access_token" JNull) with
      | Ret tok => mret ("Bearer " +:+ py_str tok)
      | Raise e => raise e
      end
  end.

Definition authenticate (base_url : string) (username password : option string) : M string :=
  if py_not username || py_not password then
    raise (ValueError "Username and password are required for authentication.")
  else
    token ← request_token base_url (default "" username) (default "" password);
    if String.eqb token "" then
      raise (Exception "Failed to authenticate with the API")
    else mret token.

(** [IMISClient.__init__]. *)
Definition __init__ (config : IMISClientConfig) : M IMISClient :=
  if py_not (BASE_URL config) then
    raise (ValueError "Base URL is required in the configuration (e.g. https://demo123.imiscloud.com)")
  else if py_not (USERNAME config) then
    raise (ValueError "Username is required in the configuration.")
  else if py_not (PWD config) then
    raise (ValueError "Password is required in the configuration.")
  else
    let base_url := default "" (BASE_URL config) in
    token ← authenticate base_url (USERNAME config) (PWD config);
    mret (Client base_url token).

Definition construct_path_request (self : IMISClient) (path : string)
    (page_size offset : Z) (last_updated : option string) : string :=
  let path_request :=
    base_url self +:+ path +:+ "&limit=" +:+ pretty page_size
      +:+ "&offset=" +:+ pretty offset in
  if negb (py_not last_updated) then
    path_request +:+ "&parameter=" +:+ default "" last_updated
  else path_request.

(** The body of the [try] of [process_response]. *)
Definition decode_page (r : response) : outcome page :=
  data ← response_json r;
  its ← simplify_data data;
  hn ← py_get data "HasNext" (JBool false);
  cnt ← py_get data "TotalCount" (JNum 0);
  mret (Page its hn cnt).

(** [process_response]: a decoding error or a missing key is logged and
    gives [None]; any other exception passes through. *)
Definition process_response (r : response) : M (option page) :=
  match decode_page r with
  | Ret p => mret (Some p)
  | Raise (JSONDecodeError msg) =>
      _ ← log_error ("Error processing response: " +:+ msg); mret None
  | Raise (KeyError k) =>
      _ ← log_error ("Error processing response: '" +:+ k +:+ "'"); mret None
  | Raise e => raise e
  end.

(** The test of the [while] of [fetch_iqa]. *)
Definition loop_test (limit : option Z) (st : loop_state) : bool :=
  truthy (ls_has_next st) &&
  match limit with
  | None => true
  | Some l => ls_offset st <? l
  end.

(** The GET that the loop sends when its offset is [offset]. *)
Definition page_request (self : IMISClient) (iqa_path : string) (page_size : Z)
    (last_updated : option string) (offset : Z) : request :=
  Request "GET"
    (construct_path_request self iqa_path page_size offset last_updated)
    None (Some [("Authorization", token self)]) None.

(** The loop variables after a decoded page: [items.extend], the new
    [has_next], [offset += len(...)]. *)
Definition advance (st : loop_state) (res : page) : loop_state :=
  LoopState (ls_items st ++ items res) (has_next res)
    (ls_offset st + Z.of_nat (length (items res))).

Definition progress_message (offset : Z) (res : page) : string :=
  "Retrieving: " +:+ pretty offset +:+ " of " +:+ py_str (count res).

(** One turn of the loop: [Some st'] to go on with [st'], [None] for
    [break].  A response that [make_request] returns has passed
    [raise_for_status], so [if response:] only tells it from [None]. *)
Definition loop_body (self : IMISClient) (iqa_path : string) (page_size : Z)
    (last_updated : option string) (st : loop_state) : M (option loop_state) :=
  let req := page_request self iqa_path page_size last_updated (ls_offset st) in
  response ← make_request (method req) (url req) (data req) (headers req) (params req);
  match response with
  | Some r =>
      result ← process_response r;
      match result with
      | Some res =>
          let st' := advance st res in
          _ ← log_info (progress_message (ls_offset st') res);
          mret (Some st')
      | None => mret None
      end
  | None => mret None
  end.

(** How far a run of the loop got: it finished, by [return] or by an
    exception, or it is still running with these variables. *)
Inductive run : Type :=
| Done (result : outcome (list record)) (w : world)
| Running (st : loop_state) (w : world).

(** The loop, with [fuel] bounding the number of turns. *)
Fixpoint fetch_loop (fuel : nat) (self : IMISClient) (iqa_path : string)
    (limit : option Z) (page_size : Z) (last_updated : option string)
    (st : loop_state) (w : world) : run :=
  if loop_test limit st then
    match fuel with
    | O => Running st w
    | S fuel' =>
        match loop_body self iqa_path page_size last_updated st w with
        | (Ret (Some st'), w') =>
            fetch_loop fuel' self iqa_path limit page_size last_updated st' w'
        | (Ret None, w') => Done (Ret (ls_items st)) w'
        | (Raise e, w') => Done (Raise e) w'
        end
    end
  else Done (Ret (ls_items st)) w.

(** [items = []], [has_next = True], [offset = 0]. *)
Definition initial_state : loop_state := LoopState [] (JBool true) 0.

Definition fetch_iqa (fuel : nat) (self : IMISClient) (iqa_path : string)
    (limit : option Z) (page_size : Z) (last_updated : option string)
    (w : world) : run :=
  let iqa_path := "/api/IQA?QueryName=" +:+ iqa_path in
  fetch_loop fuel self iqa_path limit page_size last_updated initial_state w.

(** [limit is None or offset < limit]. *)
Definition within (limit : option Z) (offset : Z) : Prop :=
  match limit with
  | None => True
  | Some l => offset < l
  end.

(** The world after one HTTP call. *)
Definition after_call (req : request) (w : world) : world :=
  World (λ n, pending w (S n)) (sent w ++ [req]) (console w).

Definition say (e : log_entry) (w : world) : world :=
  World (pending w) (sent w) (console w ++ [e]).


(** The progress messages of pages decoded in turn, the first of them
    fetched at [offset]. *)
Fixpoint progress_log (offset : Z) (pages : list page) : list log_entry :=
  match pages with
  | [] => []
  | res :: rest =>
      let offset' := offset + Z.of_nat (length (items res)) in
      LogInfo (progress_message offset' res) :: progress_log offset' rest
  end.



(** The world that a run has reached. *)
Definition run_world (x : run) : world :=
  match x with
  | Done _ w => w
  | Running _ w => w
  end.


(** [value] is a pair with this name whose [Value] is this one, or is
    missing. *)
Definition name_optional_value_pair (value : json) (nv : string * option json) : Prop :=
  ∃ kvs, value = JObj kvs ∧
         dict_lookup "Name" kvs = Some (JStr (fst nv)) ∧
         dict_lookup "Value" kvs = snd nv.

(** The exceptions that decoding a JSON body can raise. *)
Definition decoding_exn (e : exn) : Prop :=
  e = AttributeError ∨ e = TypeError ∨
  e = KeyError "Properties" ∨ e = KeyError "$values" ∨ e = KeyError "Name".

(** 1 for a run that ended by an exception, 0 for any other. *)
Definition raised (x : run) : nat :=
  match x with
  | Done (Raise _) _ => 1
  | _ => 0
  end.

(** The POST that [request_token] sends. *)
Definition token_request (base_url username password : string) : request :=
  Request "POST" (base_url +:+ "/token")
    (Some [("grant_type", "password"); ("username", username); ("password", password)])
    (Some [("Content-Type", "application/x-www-form-urlencoded")])
    None.

(** A response on which the loop breaks: the call gave no response, the
    body is not JSON, or decoding missed a key. *)
Definition absorbed_failure (o : http_outcome) : Prop :=
  match o with
  | HttpFail _ => True
  | HttpOk r =>
      (∃ msg, response_body r = Malformed msg) ∨
      (∃ k, decode_page r = Raise (KeyError k))
  end.

(** ** Construction *)

(** C7: when the base URL, the username or the password of the
    configuration is empty or absent, construction raises the validation
    error ([ValueError]) whose message names a missing field, and leaves the
    world as it was: no request has been sent. *)
Theorem init_missing_field config w :
  py_not (BASE_URL config) || py_not (USERNAME config) || py_not (PWD config) = true →
  ∃ f msg, py_not (field_of config f) = true ∧
    String.prefix (field_label f +:+ " is required") msg = true ∧
    __init__ config w = (Raise (ValueError msg), w).
Proof.
  intros H. unfold __init__.
  destruct (py_not (BASE_URL config)) eqn:Hb.
  { exists FieldBaseUrl. eexists. split; [exact Hb|]. split; [|reflexivity]. reflexivity. }
  destruct (py_not (USERNAME config)) eqn:Hu.
  { exists FieldUsername. eexists. split; [exact Hu|]. split; [|reflexivity]. reflexivity. }
  destruct (py_not (PWD config)) eqn:Hp; [|discriminate].
  exists FieldPassword. eexists. split; [exact Hp|]. split; [|reflexivity]. reflexivity.
Qed.

(** C8: with a complete configuration and a token response whose body is
    an object with [access_token] the string [s], the client is built and
    its token is ["Bearer " ++ s]; for the body [{"access_token": "xyz"}] it is
    ["Bearer xyz"]. *)
Theorem init_token config w kvs s :
  py_not (BASE_URL config) = false →
  py_not (USERNAME config) = false →
  py_not (PWD config) = false →
  pending w 0%nat = HttpOk (Response (Json (JObj kvs))) →
  dict_lookup "access_token" kvs = Some (JStr s) →
  ∃ self w', __init__ config w = (Ret self, w') ∧
    token self = "Bearer " +:+ s ∧
    (s = "xyz" → token self = "Bearer xyz").
Proof.
  intros Hb Hu Hp Hw Hk. unfold __init__. rewrite Hb, Hu, Hp.
  unfold authenticate. rewrite Hu, Hp.
  unfold request_token, make_request, requests_request, mbind, M_bind, mret, M_ret.
  cbn. rewrite Hw. cbn. rewrite Hk. cbn.
  eexists _, _. split; [reflexivity|]. split; [reflexivity|]. by intros ->.
Qed.

(** What construction does when the token call gives no response. *)
Lemma init_no_response config w e :
  py_not (BASE_URL config) = false →
  py_not (USERNAME config) = false →
  py_not (PWD config) = false →
  pending w 0%nat = HttpFail e →
  fst (__init__ config w) = Raise AttributeError.
Proof.
  intros Hb Hu Hp Hw. unfold __init__. rewrite Hb, Hu, Hp.
  unfold authenticate. rewrite Hu, Hp.
  unfold request_token, make_request, requests_request, mbind, M_bind, mret, M_ret.
  cbn. rewrite Hw. reflexivity.
Qed.

(** The test [if not token] of [authenticate] never fires. *)
Lemma init_never_authentication_error config w :
  is_authentication_error (fst (__init__ config w)) = false.
Proof.
  unfold __init__.
  destruct (py_not (BASE_URL config)); [reflexivity|].
  destruct (py_not (USERNAME config)) eqn:Hu; [reflexivity|].
  destruct (py_not (PWD config)) eqn:Hp; [reflexivity|].
  unfold authenticate. rewrite Hu, Hp.
  unfold request_token, make_request, requests_request, mbind, M_bind, mret, M_ret.
  cbn. destruct (pending w 0%nat) as [[[j|err|err|]]|e]; cbn; try reflexivity.
  destruct j; reflexivity.
Qed.

(** C1: construction at a token call that fails at the HTTP level raises
    [AttributeError]; at a token response without [access_token] it
    succeeds with the token ["Bearer None"]; at a body that is not JSON it
    raises the decoding error; and at no configuration and no response does
    it raise the error "Failed to authenticate with the API". *)
Theorem init_authentication_failure :
  fst (__init__ demo_config (world_of [HttpFail "503 Server Error"])) = Raise AttributeError ∧
  fst (__init__ demo_config (world_of [ok_json (JObj [])])) =
    Ret (Client "https://demo123.imiscloud.com" "Bearer None") ∧
  fst (__init__ demo_config (world_of [HttpOk (Response (Malformed "Expecting value"))])) =
    Raise (JSONDecodeError "Expecting value") ∧
  ∀ config w, is_authentication_error (fst (__init__ config w)) = false.
Proof.
  split; [reflexivity|]. split; [reflexivity|]. split; [reflexivity|].
  apply init_never_authentication_error.
Qed.

(** ** Flattening *)

Lemma flatten_pair_pair rec value nv :
  name_value_pair value nv →
  flatten_pair rec value = Ret (<[KStr (fst nv) := field_value (snd nv)]> rec).
Proof.
  intros (kvs & -> & Hn & Hv). unfold flatten_pair. cbn. rewrite Hv. cbn.
  destruct (snd nv) as [| | | | |inner] eqn:E; cbn; rewrite ?Hv, ?Hn; cbn;
    rewrite ?Hn; reflexivity.
Qed.

Lemma record_of_cons nv pairs rec :
  record_of (nv :: pairs) rec =
  record_of pairs (<[KStr (fst nv) := field_value (snd nv)]> rec).
Proof. reflexivity. Qed.

Lemma flatten_pairs_pairs vals pairs : ∀ rec,
  Forall2 name_value_pair vals pairs →
  flatten_pairs rec vals = Ret (record_of pairs rec).
Proof.
  intros rec H. revert rec. induction H as [|value nv vals pairs Hp _ IH]; intros rec.
  - reflexivity.
  - rewrite record_of_cons. cbn. rewrite (flatten_pair_pair _ _ _ Hp). apply IH.
Qed.

Lemma record_of_absent pairs : ∀ rec n,
  (∀ v, (n, v) ∉ pairs) → record_of pairs rec !! KStr n = rec !! KStr n.
Proof.
  induction pairs as [|[n0 v0] pairs IH]; intros rec n Hn; [done|].
  rewrite record_of_cons, IH.
  - apply lookup_insert_ne. intros [= ->]. apply (Hn v0). left.
  - intros v Hv. apply (Hn v). by right.
Qed.

Lemma record_of_last pairs : ∀ rec i n v,
  pairs !! i = Some (n, v) →
  (∀ j v', pairs !! j = Some (n, v') → (j ≤ i)%nat) →
  record_of pairs rec !! KStr n = Some (field_value v).
Proof.
  induction pairs as [|[n0 v0] pairs IH]; intros rec i n v Hi Hlast; [done|].
  destruct i as [|i]; cbn in Hi.
  - injection Hi as -> ->. rewrite record_of_cons, record_of_absent.
    + apply lookup_insert_eq.
    + intros v' Hv'. apply list_elem_of_lookup in Hv' as [j Hj].
      specialize (Hlast (S j) v' Hj). lia.
  - rewrite record_of_cons. apply (IH _ i); [done|]. intros j v' Hj.
    specialize (Hlast (S j) v' Hj). lia.
Qed.

Lemma record_of_origin pairs : ∀ rec k x,
  record_of pairs rec !! k = Some x →
  rec !! k = Some x ∨ ∃ n v, k = KStr n ∧ (n, v) ∈ pairs ∧ x = field_value v.
Proof.
  induction pairs as [|[n0 v0] pairs IH]; intros rec k x H; [by left|].
  rewrite record_of_cons in H. apply IH in H as [H|(n & v & -> & Hin & ->)].
  - destruct (decide (KStr n0 = k)) as [<-|Hne].
    + rewrite lookup_insert_eq in H. injection H as <-.
      right. exists n0, v0. split; [done|]. split; [left|done].
    + rewrite lookup_insert_ne in H by done. by left.
  - right. exists n, v. split; [done|]. split; [by right|done].
Qed.

(** C5: a row whose [Properties.$values] is a list of [{Name, Value}]
    pairs flattens to a mapping from the names to the values: each pair
    maps its name to the [$value] member of a structured [Value] (the whole
    object without one) and to any other [Value] as it is, a later pair of
    the same name replacing an earlier one; the mapping has no other entry.
    The row [[{Name:"A",Value:"x"}, {Name:"B",Value:{"$value":5}}]]
    flattens to [{"A":"x","B":5}]. *)
Theorem flatten_record_pairs row props vals pairs :
  py_getitem row "Properties" = Ret props →
  py_getitem props "$values" = Ret (JArr vals) →
  Forall2 name_value_pair vals pairs →
  (∃ rec, flatten_record row = Ret rec ∧
     (∀ i n v, pairs !! i = Some (n, v) →
        (∀ j v', pairs !! j = Some (n, v') → (j ≤ i)%nat) →
        rec !! KStr n = Some (field_value v)) ∧
     (∀ k x, rec !! k = Some x →
        ∃ n v, k = KStr n ∧ (n, v) ∈ pairs ∧ x = field_value v)) ∧
  field_value (JStr "x") = JStr "x" ∧
  field_value (JObj [("$value", JNum 5)]) = JNum 5 ∧
  field_value (JObj [("other", JNum 5)]) = JObj [("other", JNum 5)] ∧
  field_value JNull = JNull ∧
  flatten_record row_AB = Ret (<[KStr "A" := JStr "x"]> (<[KStr "B" := JNum 5]> ∅)).
Proof.
  intros Hprops Hvals Hpairs. split; [|by repeat split].
  exists (record_of pairs ∅). split; [|split].
  - unfold flatten_record. rewrite Hprops. cbn. rewrite Hvals. cbn.
    by apply flatten_pairs_pairs.
  - intros i n v. apply record_of_last.
  - intros k x H. apply record_of_origin in H as [H|H]; [|done].
    by rewrite lookup_empty in H.
Qed.

(** ** The loop, turn by turn *)

Lemma loop_body_unfold self iqa_path page_size last_updated st w :
  loop_body self iqa_path page_size last_updated st w =
  let req := page_request self iqa_path page_size last_updated (ls_offset st) in
  let w1 := after_call req w in
  match pending w 0%nat with
  | HttpFail e => (Ret None, say (LogError ("Request failed: " +:+ e)) w1)
  | HttpOk r =>
      match decode_page r with
      | Ret res =>
          (Ret (Some (advance st res)),
           say (LogInfo (progress_message (ls_offset (advance st res)) res)) w1)
      | Raise (JSONDecodeError msg) =>
          (Ret None, say (LogError ("Error processing response: " +:+ msg)) w1)
      | Raise (KeyError k) =>
          (Ret None, say (LogError ("Error processing response: '" +:+ k +:+ "'")) w1)
      | Raise e => (Raise e, w1)
      end
  end.
Proof.
  unfold loop_body, make_request, process_response, requests_request,
    mbind, M_bind, mret, M_ret, log_error, log_info, raise, say, after_call.
  cbn. destruct (pending w 0%nat) as [r|e]; cbn; [|reflexivity].
  destruct (decode_page r) as [res|[]]; reflexivity.
Qed.


Section Loop.

Variables (self : IMISClient) (iqa_path : string) (limit : option Z)
  (page_size : Z) (last_updated : option string).

Local Abbreviation loop fuel := (fetch_loop fuel self iqa_path limit page_size last_updated).
Local Abbreviation req_at offset := (page_request self iqa_path page_size last_updated offset).

Lemma fetch_loop_stop fuel st w :
  loop_test limit st = false → loop fuel st w = Done (Ret (ls_items st)) w.
Proof. intros H. destruct fuel; cbn; rewrite H; reflexivity. Qed.

Lemma fetch_loop_step fuel st w r res :
  loop_test limit st = true →
  pending w 0%nat = HttpOk r →
  decode_page r = Ret res →
  loop (S fuel) st w =
  loop fuel (advance st res)
    (say (LogInfo (progress_message (ls_offset (advance st res)) res))
       (after_call (req_at (ls_offset st)) w)).
Proof.
  intros Ht Hp Hd. cbn [fetch_loop]. rewrite Ht, loop_body_unfold. cbn zeta.
  rewrite Hp, Hd. reflexivity.
Qed.







Lemma loop_test_within st :
  loop_test limit st = true ↔ truthy (ls_has_next st) = true ∧ within limit (ls_offset st).
Proof.
  unfold loop_test, within. rewrite andb_true_iff.
  destruct limit as [l|]; [rewrite Z.ltb_lt|]; intuition.
Qed.

Lemma within_le a b :
  a ≤ b → within limit b → within limit a.
Proof. unfold within. destruct limit; [lia|done]. Qed.

Lemma decode_page_inv r res :
  decode_page r = Ret res →
  ∃ kvs, response_body r = Json (JObj kvs) ∧
    simplify_data (JObj kvs) = Ret (items res) ∧
    has_next res = default (JBool false) (dict_lookup "HasNext" kvs) ∧
    count res = default (JNum 0) (dict_lookup "TotalCount" kvs).
Proof.
  unfold decode_page, response_json.
  destruct (response_body r) as [data|err|err|]; [|done..].
  cbn. destruct (simplify_data data) as [its|e] eqn:Hs; [|done].
  destruct data; try done. cbn. intros [= <-]. eauto.
Qed.

Lemma decode_page_obj kvs recs :
  simplify_data (JObj kvs) = Ret recs →
  decode_page (Response (Json (JObj kvs))) =
  Ret (Page recs (default (JBool false) (dict_lookup "HasNext" kvs))
         (default (JNum 0) (dict_lookup "TotalCount" kvs))).
Proof.
  intros H. unfold decode_page, response_json. cbn [response_body].
  unfold mbind, outcome_bind. cbn [obind]. rewrite H. reflexivity.
Qed.

(** C3: [fetch_iqa] starts the loop with no items, the flag true and
    offset 0.  When the test of the loop (flag truthy, and no limit or
    offset below it) fails, the loop returns the items without a request.
    When it holds and the page decodes, the loop goes on with the records
    of the page appended, the offset advanced by their number, the flag
    replaced by the [HasNext] of the page (false when absent), one request
    sent and the message "Retrieving: {offset} of {total_count}" logged with
    the new offset. *)
Theorem fetch_iqa_pagination fuel st w r res :
  loop_test limit st = true →
  pending w 0%nat = HttpOk r →
  decode_page r = Ret res →
  (∀ path w0, fetch_iqa fuel self path limit page_size last_updated w0 =
     fetch_loop fuel self ("/api/IQA?QueryName=" +:+ path) limit page_size
       last_updated initial_state w0) ∧
  ls_items initial_state = [] ∧ ls_offset initial_state = 0 ∧
  ls_has_next initial_state = JBool true ∧
  (∀ st0, loop_test limit st0 = true ↔
     truthy (ls_has_next st0) = true ∧ within limit (ls_offset st0)) ∧
  (∀ st0 w0, loop_test limit st0 = false →
     loop fuel st0 w0 = Done (Ret (ls_items st0)) w0) ∧
  ∃ st' w' kvs,
    loop (S fuel) st w = loop fuel st' w' ∧
    ls_items st' = ls_items st ++ items res ∧
    ls_offset st' = ls_offset st + Z.of_nat (length (items res)) ∧
    ls_has_next st' = has_next res ∧
    response_body r = Json (JObj kvs) ∧
    simplify_data (JObj kvs) = Ret (items res) ∧
    has_next res = default (JBool false) (dict_lookup "HasNext" kvs) ∧
    count res = default (JNum 0) (dict_lookup "TotalCount" kvs) ∧
    sent w' = sent w ++ [req_at (ls_offset st)] ∧
    console w' = console w ++
      [LogInfo ("Retrieving: " +:+ pretty (ls_offset st') +:+ " of " +:+ py_str (count res))].
Proof.
  intros Ht Hp Hd.
  split; [reflexivity|]. do 3 (split; [reflexivity|]).
  split; [apply loop_test_within|].
  split; [intros st0 w0; apply fetch_loop_stop|].
  destruct (decode_page_inv _ _ Hd) as (kvs & Hb & Hs & Hn & Hc).
  eexists _, _, kvs. split; [by apply (fetch_loop_step _ _ _ r res)|].
  by repeat split.
Qed.

Lemma fetch_loop_last_page fuel st w kvs recs :
  loop_test limit st = true →
  pending w 0%nat = ok_json (JObj kvs) →
  truthy (default (JBool false) (dict_lookup "HasNext" kvs)) = false →
  simplify_data (JObj kvs) = Ret recs →
  loop (S fuel) st w =
  Done (Ret (ls_items st ++ recs))
    (say (LogInfo ("Retrieving: " +:+ pretty (ls_offset st + Z.of_nat (length recs))
                     +:+ " of " +:+ py_str (default (JNum 0) (dict_lookup "TotalCount" kvs))))
       (after_call (req_at (ls_offset st)) w)).
Proof.
  intros Ht Hp Hn Hs.
  rewrite (fetch_loop_step _ _ _ _ _ Ht Hp (decode_page_obj _ _ Hs)).
  rewrite fetch_loop_stop; [reflexivity|].
  unfold loop_test. cbn. by rewrite Hn.
Qed.

End Loop.

(** C4: when the first page is fetched (no limit, or a positive one) and
    has a false [HasNext], [fetch_iqa] sends exactly one request and returns
    exactly the flattened records of that page.  When the first page has a
    true [HasNext] and 2 records, and the second a false [HasNext] and 1
    record, and the limit lets the second be fetched (none, or above 2),
    [fetch_iqa] returns the 3 records in their order of arrival after two
    requests and logs "Retrieving: 2 of <count>" then "Retrieving: 3 of
    <count>", each with the [TotalCount] of its page. *)
Theorem fetch_iqa_one_and_two_pages fuel self path limit page_size last_updated w :
  (∀ kvs recs,
     within limit 0 →
     pending w 0%nat = ok_json (JObj kvs) →
     truthy (default (JBool false) (dict_lookup "HasNext" kvs)) = false →
     simplify_data (JObj kvs) = Ret recs →
     ∃ w', fetch_iqa (S fuel) self path limit page_size last_updated w = Done (Ret recs) w' ∧
       sent w' = sent w ++
         [page_request self ("/api/IQA?QueryName=" +:+ path) page_size last_updated 0]) ∧
  (∀ kvs1 kvs2 recs1 recs2,
     within limit 2 →
     pending w 0%nat = ok_json (JObj kvs1) →
     pending w 1%nat = ok_json (JObj kvs2) →
     truthy (default (JBool false) (dict_lookup "HasNext" kvs1)) = true →
     truthy (default (JBool false) (dict_lookup "HasNext" kvs2)) = false →
     simplify_data (JObj kvs1) = Ret recs1 → length recs1 = 2%nat →
     simplify_data (JObj kvs2) = Ret recs2 → length recs2 = 1%nat →
     ∃ w', fetch_iqa (S (S fuel)) self path limit page_size last_updated w =
             Done (Ret (recs1 ++ recs2)) w' ∧
       sent w' = sent w ++
         [page_request self ("/api/IQA?QueryName=" +:+ path) page_size last_updated 0;
          page_request self ("/api/IQA?QueryName=" +:+ path) page_size last_updated 2] ∧
       console w' = console w ++
         [LogInfo ("Retrieving: 2 of " +:+
                   py_str (default (JNum 0) (dict_lookup "TotalCount" kvs1)));
          LogInfo ("Retrieving: 3 of " +:+
                   py_str (default (JNum 0) (dict_lookup "TotalCount" kvs2)))]).
Proof.
  split.
  - intros kvs recs Hl Hp Hn Hs. unfold fetch_iqa. cbn zeta.
    rewrite fetch_loop_last_page with (kvs := kvs) (recs := recs); try done.
    + eexists. split; reflexivity.
    + by apply loop_test_within.
  - intros kvs1 kvs2 recs1 recs2 Hl Hp1 Hp2 Hn1 Hn2 Hs1 Hlen1 Hs2 Hlen2.
    unfold fetch_iqa. cbn zeta.
    rewrite fetch_loop_step with
      (r := Response (Json (JObj kvs1)))
      (res := Page recs1 (default (JBool false) (dict_lookup "HasNext" kvs1))
                (default (JNum 0) (dict_lookup "TotalCount" kvs1)));
      [|apply loop_test_within; split; [done|by apply (within_le _ 0 2)]
       |exact Hp1|by apply decode_page_obj].
    rewrite fetch_loop_last_page with (kvs := kvs2) (recs := recs2); try done.
    + eexists. split; [reflexivity|]. cbn. rewrite Hlen1, Hlen2. cbn.
      rewrite <- !app_assoc. by split.
    + apply loop_test_within. cbn. rewrite Hlen1. by split.
Qed.







Section Runs.

Variables (self : IMISClient) (iqa_path : string) (page_size : Z)
  (last_updated : option string).

Local Abbreviation loop fuel limit :=
  (fetch_loop fuel self iqa_path limit page_size last_updated).
Local Abbreviation req_at offset :=
  (page_request self iqa_path page_size last_updated offset).

Lemma fetch_loop_S limit fuel st w :
  loop (S fuel) limit st w =
  if loop_test limit st then
    match loop_body self iqa_path page_size last_updated st w with
    | (Ret (Some st'), w') => loop fuel limit st' w'
    | (Ret None, w') => Done (Ret (ls_items st)) w'
    | (Raise e, w') => Done (Raise e) w'
    end
  else Done (Ret (ls_items st)) w.
Proof. reflexivity. Qed.

Lemma fetch_loop_bound l : ∀ fuel st w,
  ls_offset st = Z.of_nat (length (ls_items st)) →
  ls_offset st < l + page_size →
  (∀ n r res, pending w n = HttpOk r → decode_page r = Ret res →
     Z.of_nat (length (items res)) ≤ page_size) →
  match loop fuel (Some l) st w with
  | Done (Ret result) _ => Z.of_nat (length result) < l + page_size
  | Done (Raise _) _ => True
  | Running st' _ => Z.of_nat (length (ls_items st')) < l
  end.
Proof.
  induction fuel as [|fuel IH]; intros st w Hoff Hlt Hpages;
    cbn [fetch_loop]; destruct (loop_test (Some l) st) eqn:Ht; try lia.
  - apply loop_test_within in Ht as [_ Ht]. cbn in Ht. lia.
  - rewrite loop_body_unfold. cbn zeta.
    apply loop_test_within in Ht as [_ Ht]. cbn in Ht.
    destruct (pending w 0%nat) as [r|e] eqn:Hp; [|lia].
    destruct (decode_page r) as [res|[]] eqn:Hd; try done; try lia.
    specialize (Hpages 0%nat r res Hp Hd) as Hlen.
    apply IH.
    + cbn. rewrite length_app. lia.
    + cbn. lia.
    + intros n r' res' Hn. apply (Hpages (S n)). exact Hn.
Qed.

Lemma fetch_loop_deterministic limit : ∀ fuel1 fuel2 st w1 w2 res1 res2 w1' w2',
  (∀ n, pending w1 n = pending w2 n) →
  loop fuel1 limit st w1 = Done res1 w1' →
  loop fuel2 limit st w2 = Done res2 w2' →
  res1 = res2.
Proof.
  induction fuel1 as [|fuel1 IH]; intros fuel2 st w1 w2 res1 res2 w1' w2' Hw;
    destruct fuel2 as [|fuel2]; cbn [fetch_loop];
    destruct (loop_test limit st) eqn:Ht; try congruence.
  rewrite !loop_body_unfold. cbn zeta. rewrite <- (Hw 0%nat).
  destruct (pending w1 0%nat) as [r|e]; [|congruence].
  destruct (decode_page r) as [res|[]]; try congruence.
  apply IH. intros n. cbn. apply Hw.
Qed.

Lemma fetch_loop_same_result limit : ∀ fuel st w1 w2 res w1',
  (∀ n, pending w1 n = pending w2 n) →
  loop fuel limit st w1 = Done res w1' →
  ∃ w2', loop fuel limit st w2 = Done res w2'.
Proof.
  induction fuel as [|fuel IH]; intros st w1 w2 res w1' Hw; cbn [fetch_loop];
    destruct (loop_test limit st) eqn:Ht; try discriminate;
    try (intros [= <- _]; eauto).
  rewrite !loop_body_unfold. cbn zeta. rewrite <- (Hw 0%nat).
  destruct (pending w1 0%nat) as [r|e]; [|intros [= <- _]; eauto].
  destruct (decode_page r) as [res'|[]]; try (intros [= <- _]; eauto).
  apply IH. intros n. cbn. apply Hw.
Qed.

Lemma fetch_loop_more_fuel limit : ∀ fuel k st w res w',
  loop fuel limit st w = Done res w' →
  loop (fuel + k) limit st w = Done res w'.
Proof.
  induction fuel as [|fuel IH]; intros k st w res w'; cbn [fetch_loop Nat.add];
    destruct (loop_test limit st) eqn:Ht.
  - discriminate.
  - intros H. by rewrite fetch_loop_stop.
  - destruct (loop_body _ _ _ _ st w) as [[[st'|]|e] w1]; try done. apply IH.
  - done.
Qed.




End Runs.

(** C6: with a limit [l] and pages of at most [page_size] records (and
    [l + page_size] positive, as any bound on a length must be), the list
    that [fetch_iqa] returns has fewer than [l + page_size] records; while
    the loop is running, with a next request to come, the records fetched
    so far number fewer than [l]. *)
Theorem fetch_iqa_limit_overshoot fuel self path l page_size last_updated w :
  0 < l + page_size →
  (∀ n r res, pending w n = HttpOk r → decode_page r = Ret res →
     Z.of_nat (length (items res)) ≤ page_size) →
  match fetch_iqa fuel self path (Some l) page_size last_updated w with
  | Done (Ret result) _ => Z.of_nat (length result) < l + page_size
  | Done (Raise _) _ => True
  | Running st _ => Z.of_nat (length (ls_items st)) < l
  end.
Proof.
  intros Hpos Hpages. unfold fetch_iqa. cbn zeta.
  by apply fetch_loop_bound.
Qed.

(** C9: take two invocations of [fetch_iqa] with the same arguments, in
    worlds that hold the same sequence of responses, whatever was sent or
    logged before.  When the first finishes, the second finishes too, given
    as many turns or more, with the identical record list (or the same
    exception); and however many turns the second is given, if it finishes
    it finishes with that result. *)
Theorem fetch_iqa_deterministic fuel1 self path limit page_size last_updated
    w1 w2 res1 w1' :
  (∀ n, pending w1 n = pending w2 n) →
  fetch_iqa fuel1 self path limit page_size last_updated w1 = Done res1 w1' →
  (∀ fuel2, (fuel1 ≤ fuel2)%nat →
     ∃ w2', fetch_iqa fuel2 self path limit page_size last_updated w2 = Done res1 w2') ∧
  (∀ fuel2 res2 w2',
     fetch_iqa fuel2 self path limit page_size last_updated w2 = Done res2 w2' →
     res1 = res2).
Proof.
  unfold fetch_iqa. cbn zeta. intros Hw Hrun. split.
  - intros fuel2 Hfuel.
    destruct (fetch_loop_same_result _ _ _ _ _ _ _ _ _ _ _ Hw Hrun) as [w2' H2].
    exists w2'. replace fuel2 with (fuel1 + (fuel2 - fuel1))%nat by lia.
    by apply fetch_loop_more_fuel.
  - intros fuel2 res2 w2' H2. by eapply fetch_loop_deterministic.
Qed.


(** A body of an unexpected shape is not among the failures that
    [process_response] absorbs: on [{"Items": null}] the [AttributeError]
    leaves [fetch_iqa]. *)
Lemma fetch_iqa_unexpected_shape fuel :
  ∃ w', fetch_iqa (S fuel) demo_client "$/Q" None 200 None
          (world_of [ok_json (JObj [("Items", JNull)])]) =
        Done (Raise AttributeError) w'.
Proof. eexists. reflexivity. Qed.

(** ** Further properties of the request URL *)

Lemma string_app_cons a s t : String a s +:+ t = String a (s +:+ t).
Proof. reflexivity. Qed.

Lemma string_app_length s t :
  String.length (s +:+ t) = (String.length s + String.length t)%nat.
Proof.
  induction s as [|a s IH]; [done|].
  rewrite string_app_cons. cbn. by rewrite IH.
Qed.

Lemma string_app_assoc s t u : (s +:+ t) +:+ u = s +:+ (t +:+ u).
Proof.
  induction s as [|a s IH]; [done|].
  rewrite !string_app_cons. by rewrite IH.
Qed.

Lemma string_app_inv_tail t : ∀ s1 s2, s1 +:+ t = s2 +:+ t → s1 = s2.
Proof.
  induction s1 as [|a s1 IH]; intros [|b s2] H; [done| | |].
  - apply (f_equal String.length) in H.
    rewrite !string_app_length in H. cbn in H. lia.
  - apply (f_equal String.length) in H.
    rewrite !string_app_length in H. cbn in H. lia.
  - rewrite !string_app_cons in H. injection H as -> H. f_equal. by apply IH.
Qed.

(** X1: the requests of two different offsets have different URLs. *)
Theorem construct_path_request_offset_inj self path page_size last_updated o1 o2 :
  o1 ≠ o2 →
  construct_path_request self path page_size o1 last_updated ≠
  construct_path_request self path page_size o2 last_updated.
Proof.
  intros Hne H. apply Hne. unfold construct_path_request in H. cbn zeta in H.
  assert (Hcore : base_url self +:+ path +:+ "&limit=" +:+ pretty page_size
                    +:+ "&offset=" +:+ pretty o1 =
                  base_url self +:+ path +:+ "&limit=" +:+ pretty page_size
                    +:+ "&offset=" +:+ pretty o2).
  { destruct (negb (py_not last_updated)); [|done]. by apply string_app_inv_tail in H. }
  do 5 apply String.app_inj in Hcore.
  by apply pretty_Z_inj in Hcore.
Qed.

(** ** Further properties of the flattening *)

Lemma flatten_rows_Forall2 rows : ∀ recs,
  flatten_rows rows = Ret recs ↔
  Forall2 (λ row rec, flatten_record row = Ret rec) rows recs.
Proof.
  induction rows as [|row rows IH]; intros recs; cbn.
  - split; [intros [= <-]; constructor | by inversion 1].
  - destruct (flatten_record row) as [r|e] eqn:Hr; cbn.
    + destruct (flatten_rows rows) as [rs|e] eqn:Hrs; cbn.
      * split.
        -- intros [= <-]. constructor; [done|]. by apply IH.
        -- inversion 1 as [|? rec ? recs' Hrec Hrest]; subst.
           rewrite Hr in Hrec. injection Hrec as <-.
           apply IH in Hrest. by injection Hrest as <-.
      * split; [done|]. inversion 1 as [|? rec ? recs' Hrec Hrest]; subst.
        by apply IH in Hrest.
    + split; [done|]. inversion 1 as [|? rec ? recs' Hrec Hrest]; subst.
      by rewrite Hr in Hrec.
Qed.

(** X2: when [simplify_data] returns, it returns one record for each row of
    [Items.$values], in the order of the rows, each the flattening of its
    row. *)
Theorem simplify_data_rows kvs ikvs rows recs :
  dict_lookup "Items" kvs = Some (JObj ikvs) →
  dict_lookup "$values" ikvs = Some (JArr rows) →
  simplify_data (JObj kvs) = Ret recs →
  length recs = length rows ∧
  ∀ i row, rows !! i = Some row →
    ∃ rec, recs !! i = Some rec ∧ flatten_record row = Ret rec.
Proof.
  intros Hitems Hvals. unfold simplify_data. cbn. rewrite Hitems. cbn.
  rewrite Hvals. cbn. intros H%flatten_rows_Forall2. split.
  - symmetry. by eapply Forall2_length.
  - intros i row Hi. destruct (Forall2_lookup_l _ _ _ _ _ H Hi) as (rec & ? & ?). eauto.
Qed.

Lemma flatten_pair_optional rec value nv :
  name_optional_value_pair value nv →
  flatten_pair rec value =
  Ret (<[KStr (fst nv) := field_value (default JNull (snd nv))]> rec).
Proof.
  intros (kvs & -> & Hn & Hv). destruct (snd nv) as [v|] eqn:E.
  - apply (flatten_pair_pair rec _ (fst nv, v)). exists kvs. by rewrite Hv.
  - unfold flatten_pair. cbn. rewrite Hv. cbn. rewrite ?Hv, ?Hn. reflexivity.
Qed.

Lemma flatten_pairs_optional vals pairs : ∀ rec0,
  Forall2 name_optional_value_pair vals pairs →
  flatten_pairs rec0 vals =
  Ret (record_of (map (λ nv, (fst nv, default JNull (snd nv))) pairs) rec0).
Proof.
  intros rec0 H. revert rec0.
  induction H as [|value nv vals' pairs' Hp _ IH]; intros rec0; [done|].
  cbn [map]. rewrite record_of_cons. cbn [flatten_pairs].
  rewrite (flatten_pair_optional _ _ _ Hp). apply IH.
Qed.

(** X3: a pair without [Value] is no error: it maps its name to [None].  A
    row of pairs, each with a string [Name] and with or without [Value],
    flattens to the mapping of each name to the value of its last pair,
    [None] standing for a missing [Value]. *)
Theorem flatten_record_missing_value row props vals pairs :
  py_getitem row "Properties" = Ret props →
  py_getitem props "$values" = Ret (JArr vals) →
  Forall2 name_optional_value_pair vals pairs →
  ∃ rec, flatten_record row = Ret rec ∧
    ∀ i n ov, pairs !! i = Some (n, ov) →
      (∀ j ov', pairs !! j = Some (n, ov') → (j ≤ i)%nat) →
      rec !! KStr n = Some (match ov with Some v => field_value v | None => JNull end).
Proof.
  intros Hprops Hvals Hpairs.
  eexists. split.
  - unfold flatten_record. rewrite Hprops. cbn. rewrite Hvals. cbn.
    by apply flatten_pairs_optional.
  - intros i n ov Hi Hlast.
    rewrite (record_of_last _ _ i n (default JNull ov)).
    + by destruct ov.
    + by rewrite list_lookup_fmap, Hi.
    + intros j v' Hj. rewrite list_lookup_fmap in Hj.
      destruct (pairs !! j) as [[n' ov']|] eqn:Ej; [|done].
      injection Hj as -> _. by apply (Hlast j ov').
Qed.

(** ** Which failures [process_response] absorbs *)

Lemma flatten_pair_raises rec value e :
  flatten_pair rec value = Raise e →
  e = AttributeError ∨ e = TypeError ∨ e = KeyError "Name".
Proof.
  unfold flatten_pair. destruct value as [| | | | |kvs]; cbn; try (intros [= <-]; auto).
  destruct (dict_lookup "Value" kvs) as [[| | | | |inner]|]; cbn;
    destruct (dict_lookup "Name" kvs) as [[]|]; cbn; intros [= <-]; auto.
Qed.

Lemma flatten_pairs_raises value_pairs : ∀ rec e,
  flatten_pairs rec value_pairs = Raise e →
  e = AttributeError ∨ e = TypeError ∨ e = KeyError "Name".
Proof.
  induction value_pairs as [|value rest IH]; intros rec e; [done|]. cbn.
  destruct (flatten_pair rec value) as [rec'|e'] eqn:Hp; cbn.
  - apply IH.
  - intros [= ->]. by apply flatten_pair_raises in Hp.
Qed.

Lemma flatten_record_raises row e :
  flatten_record row = Raise e → decoding_exn e.
Proof.
  unfold flatten_record, decoding_exn.
  destruct row as [| | | | |kvs]; cbn; try (intros [= <-]; auto).
  destruct (dict_lookup "Properties" kvs) as [props|]; cbn; [|intros [= <-]; auto].
  destruct props as [| | | | |pkvs]; cbn; try (intros [= <-]; auto).
  destruct (dict_lookup "$values" pkvs) as [vals|]; cbn; [|intros [= <-]; auto 6].
  destruct (py_iter vals) as [value_pairs|e'] eqn:Hi; cbn.
  - intros [->|[->| ->]]%flatten_pairs_raises; auto 6.
  - intros [= ->]. destruct vals; cbn in Hi; try discriminate Hi;
      injection Hi as <-; auto.
Qed.

Lemma flatten_rows_raises rows e :
  flatten_rows rows = Raise e → decoding_exn e.
Proof.
  induction rows as [|row rows IH]; [done|]. cbn.
  destruct (flatten_record row) as [r|e'] eqn:Hr; cbn.
  - destruct (flatten_rows rows) as [rs|e']; cbn; [done|].
    intros [= ->]. by apply IH.
  - intros [= ->]. by apply flatten_record_raises in Hr.
Qed.

Lemma simplify_data_raises data e :
  simplify_data data = Raise e → decoding_exn e.
Proof.
  unfold simplify_data.
  destruct data as [| | | | |kvs]; cbn; try (intros [= <-]; red; auto).
  destruct (default (JObj []) (dict_lookup "Items" kvs)) as [| | | | |ikvs]; cbn;
    try (intros [= <-]; red; auto).
  destruct (py_iter (default (JArr []) (dict_lookup "$values" ikvs))) as [rows|e'] eqn:Hi;
    cbn.
  - apply flatten_rows_raises.
  - intros [= ->].
    destruct (default (JArr []) (dict_lookup "$values" ikvs)); cbn in Hi;
      try discriminate Hi; injection Hi as <-; red; auto.
Qed.

(** The exceptions of decoding: what [response.json()] raised, if it
    did; on a JSON body an [AttributeError], a [TypeError], or a
    [KeyError] for [Properties], [$values] or [Name]. *)
Lemma decode_page_raises r e :
  decode_page r = Raise e →
  match response_body r with
  | Json _ => decoding_exn e
  | Malformed msg => e = JSONDecodeError msg
  | TooManyDigits msg => e = ValueError msg
  | TooDeep => e = RecursionError
  end.
Proof.
  unfold decode_page, response_json.
  destruct (response_body r) as [data|err|err|]; cbn; try (by intros [= <-]).
  intros H.
  destruct (simplify_data data) as [its|e'] eqn:Hs; cbn in H.
  - destruct data; cbn in H; try discriminate H; injection H as <-; red; auto.
  - injection H as <-. by apply simplify_data_raises in Hs.
Qed.

(** X4: what [process_response] does, by what [response.json()] does on
    the body.  On a decoded JSON value it returns the decoded page and logs
    nothing, or returns [None] after logging exactly one error that names
    the missing key, one of [Properties], [$values] and [Name], or raises
    an [AttributeError] or a [TypeError] and logs nothing.  On a body that
    is not JSON it returns [None] after logging the message of the decoder.
    The [ValueError] and the [RecursionError] of the decoder it lets
    through, and logs nothing. *)
Theorem process_response_outcomes r w :
  match response_body r with
  | Json data =>
      (∃ res, decode_page r = Ret res ∧ process_response r w = (Ret (Some res), w)) ∨
      (∃ k, (k = "Properties" ∨ k = "$values" ∨ k = "Name") ∧
            decode_page r = Raise (KeyError k) ∧
            process_response r w =
              (Ret None, say (LogError ("Error processing response: '" +:+ k +:+ "'")) w)) ∨
      (∃ e, (e = AttributeError ∨ e = TypeError) ∧
            decode_page r = Raise e ∧ process_response r w = (Raise e, w))
  | Malformed msg =>
      process_response r w =
        (Ret None, say (LogError ("Error processing response: " +:+ msg)) w)
  | TooManyDigits msg => process_response r w = (Raise (ValueError msg), w)
  | TooDeep => process_response r w = (Raise RecursionError, w)
  end.
Proof.
  unfold process_response.
  destruct (decode_page r) as [res|e] eqn:Hd.
  - unfold decode_page, response_json in Hd.
    destruct (response_body r) as [data|err|err|]; [|done..]. left. eauto.
  - apply decode_page_raises in Hd as He.
    destruct (response_body r) as [data|err|err|]; [|by subst..].
    destruct He as [->|[->|[->|[->| ->]]]].
    + right. right. eexists. split; [by left|]. done.
    + right. right. eexists. split; [by right|]. done.
    + right. left. eexists. split; [by left|]. done.
    + right. left. eexists. split; [right; by left|]. done.
    + right. left. eexists. split; [right; by right|]. done.
Qed.

(** ** What a run of the loop sends, logs and returns *)

Section Effects.

Variables (self : IMISClient) (iqa_path : string) (limit : option Z)
  (page_size : Z) (last_updated : option string).

Local Abbreviation loop fuel :=
  (fetch_loop fuel self iqa_path limit page_size last_updated).
Local Abbreviation req_at offset :=
  (page_request self iqa_path page_size last_updated offset).

Lemma fetch_loop_effects : ∀ fuel st w,
  ∃ offsets msgs,
    sent (run_world (loop fuel st w)) = sent w ++ map (λ o, req_at o) offsets ∧
    console (run_world (loop fuel st w)) = console w ++ msgs ∧
    Forall (λ o, ls_offset st ≤ o ∧ within limit o) offsets ∧
    length offsets = (length msgs + raised (loop fuel st w))%nat.
Proof.
  induction fuel as [|fuel IH]; intros st w.
  { exists [], []. cbn [fetch_loop]. destruct (loop_test limit st); cbn;
      rewrite !app_nil_r; by repeat split. }
  rewrite fetch_loop_S. destruct (loop_test limit st) eqn:Ht.
  2:{ exists [], []. cbn. rewrite !app_nil_r. by repeat split. }
  rewrite loop_body_unfold. cbn zeta.
  assert (Hhere : ls_offset st ≤ ls_offset st ∧ within limit (ls_offset st)).
  { apply loop_test_within in Ht as [_ ?]. split; [lia|done]. }
  destruct (pending w 0%nat) as [r|e].
  2:{ exists [ls_offset st], [LogError ("Request failed: " +:+ e)]. cbn.
      repeat split; auto. }
  destruct (decode_page r) as [res|e] eqn:Hd.
  - destruct (IH (advance st res)
               (say (LogInfo (progress_message (ls_offset (advance st res)) res))
                  (after_call (req_at (ls_offset st)) w)))
      as (offsets & msgs & Hsent & Hlog & Hoff & Hlen).
    exists (ls_offset st :: offsets),
           (LogInfo (progress_message (ls_offset (advance st res)) res) :: msgs).
    rewrite Hsent, Hlog. cbn. rewrite <- !app_assoc. cbn.
    split; [done|]. split; [done|]. split.
    + constructor; [done|]. eapply Forall_impl; [exact Hoff|].
      cbn. intros o [? ?]. split; [lia|done].
    + cbn in Hlen. lia.
  - destruct e as [| | | |k|msg|].
    all: try (exists [ls_offset st], []; cbn; rewrite app_nil_r; by repeat split; auto).
    all: eexists [ls_offset st], [_]; cbn; repeat split; auto.
Qed.


Lemma fetch_loop_sound : ∀ fuel st w result w',
  loop fuel st w = Done (Ret result) w' →
  ∃ pages, result = ls_items st ++ concat (map items pages) ∧
    (∀ i res, pages !! i = Some res →
       ∃ r, pending w i = HttpOk r ∧ decode_page r = Ret res) ∧
    (length (sent w) + length pages ≤ length (sent w'))%nat.
Proof.
  induction fuel as [|fuel IH]; intros st w result w'.
  { cbn [fetch_loop]. destruct (loop_test limit st); [done|].
    intros [= <- <-]. exists []. cbn. rewrite app_nil_r. split; [done|].
    split; [done|lia]. }
  rewrite fetch_loop_S. destruct (loop_test limit st).
  2:{ intros [= <- <-]. exists []. cbn. rewrite app_nil_r. split; [done|].
      split; [done|lia]. }
  rewrite loop_body_unfold. cbn zeta.
  destruct (pending w 0%nat) as [r|e] eqn:Hp.
  2:{ intros [= <- <-]. exists []. cbn. rewrite app_nil_r. split; [done|].
      split; [done|]. rewrite length_app. cbn. lia. }
  destruct (decode_page r) as [res|e] eqn:Hd.
  - intros (pages & -> & Hpages & Hlen)%IH. exists (res :: pages). cbn.
    rewrite <- app_assoc. split; [done|]. split.
    + intros [|i] res' Hi.
      * injection Hi as <-. eauto.
      * exact (Hpages i res' Hi).
    + cbn in Hlen. rewrite length_app in Hlen. cbn in Hlen. lia.
  - destruct e; try done; intros [= <- <-]; exists []; cbn; rewrite app_nil_r;
      (split; [done|]); (split; [done|]); rewrite length_app; cbn; lia.
Qed.

(** A returned list, in full: the pages that went into it are the
    responses up to the first at which the loop stops, by its test or by
    an absorbed failure. *)
Lemma fetch_loop_returns : ∀ fuel st w result w',
  loop fuel st w = Done (Ret result) w' →
  ∃ pages tail,
    result = ls_items st ++ concat (map items pages) ∧
    (∀ i res, pages !! i = Some res →
       ∃ r, pending w i = HttpOk r ∧ decode_page r = Ret res) ∧
    (∀ i, (i < length pages)%nat →
       loop_test limit (foldl advance st (take i pages)) = true) ∧
    console w' = console w ++ progress_log (ls_offset st) pages ++ tail ∧
    ((loop_test limit (foldl advance st pages) = false ∧ tail = [] ∧
      length (sent w') = (length (sent w) + length pages)%nat) ∨
     (loop_test limit (foldl advance st pages) = true ∧
      absorbed_failure (pending w (length pages)) ∧
      (∃ msg, tail = [LogError msg]) ∧
      length (sent w') = S (length (sent w) + length pages))).
Proof.
  induction fuel as [|fuel IH]; intros st w result w'.
  { cbn [fetch_loop]. destruct (loop_test limit st) eqn:Ht; [done|].
    intros [= <- <-]. exists [], []. cbn. rewrite !app_nil_r.
    split; [done|]. split; [done|]. split; [intros i Hi; lia|]. split; [done|].
    left. split; [done|]. split; [done|lia]. }
  rewrite fetch_loop_S. destruct (loop_test limit st) eqn:Ht.
  2:{ intros [= <- <-]. exists [], []. cbn. rewrite !app_nil_r.
      split; [done|]. split; [done|]. split; [intros i Hi; lia|]. split; [done|].
      left. split; [done|]. split; [done|lia]. }
  rewrite loop_body_unfold. cbn zeta.
  destruct (pending w 0%nat) as [r|e] eqn:Hp.
  2:{ intros [= <- <-]. eexists [], [_]. cbn. rewrite !app_nil_r.
      split; [done|]. split; [done|]. split; [intros i Hi; lia|]. split; [done|].
      right. split; [done|]. rewrite Hp. split; [done|]. split; [eauto|].
      rewrite length_app. cbn. lia. }
  destruct (decode_page r) as [res|e] eqn:Hd.
  - intros (pages & tail & -> & Hpages & Htests & Hlog & Hend)%IH.
    exists (res :: pages), tail.
    cbn [map concat length foldl progress_log advance ls_items ls_offset] in *.
    rewrite <- app_assoc. split; [done|]. split; [|split; [|split]].
    + intros [|i] res' Hi.
      * injection Hi as <-. eauto.
      * exact (Hpages i res' Hi).
    + intros [|i] Hi; [exact Ht|]. cbn. apply Htests. cbn in Hi. lia.
    + rewrite Hlog. cbn. by rewrite <- app_assoc.
    + cbn in Hend. rewrite length_app in Hend. cbn in Hend.
      destruct Hend as [(? & ? & ?)|(? & ? & ? & ?)]; [left|right];
        repeat split; try done; lia.
  - assert (Hcases : (∃ msg, e = JSONDecodeError msg) ∨ (∃ k, e = KeyError k) ∨
                     ((∀ msg, e ≠ JSONDecodeError msg) ∧ ∀ k, e ≠ KeyError k)).
    { destruct e; eauto. }
    destruct Hcases as [[msg ->]|[[k ->]|[Hj Hk]]].
    + intros [= <- <-]. eexists [], [_]. cbn. rewrite !app_nil_r.
      split; [done|]. split; [done|]. split; [intros i Hi; lia|]. split; [done|].
      right. split; [done|]. rewrite Hp. split.
      * left. apply decode_page_raises in Hd.
        destruct (response_body r) as [data|err|err|]; try done.
        -- destruct Hd as [?|[?|[?|[?|?]]]]; done.
        -- eauto.
      * split; [eauto|]. rewrite length_app. cbn. lia.
    + intros [= <- <-]. eexists [], [_]. cbn. rewrite !app_nil_r.
      split; [done|]. split; [done|]. split; [intros i Hi; lia|]. split; [done|].
      right. split; [done|]. rewrite Hp. split; [right; eauto|].
      split; [eauto|]. rewrite length_app. cbn. lia.
    + destruct e; try done; [exfalso; by eapply Hk | exfalso; by eapply Hj].
Qed.

Lemma fetch_loop_sends_first fuel st w :
  loop_test limit st = true →
  ∃ reqs, sent (run_world (loop (S fuel) st w)) =
          sent w ++ req_at (ls_offset st) :: reqs.
Proof.
  intros Ht. rewrite fetch_loop_S, Ht, loop_body_unfold. cbn zeta.
  destruct (pending w 0%nat) as [r|e]; [|by exists []].
  destruct (decode_page r) as [res|e].
  - destruct (fetch_loop_effects fuel (advance st res)
               (say (LogInfo (progress_message (ls_offset (advance st res)) res))
                  (after_call (req_at (ls_offset st)) w)))
      as (offsets & msgs & Hsent & _).
    rewrite Hsent. cbn. rewrite <- app_assoc. by eexists.
  - destruct e; by exists [].
Qed.

End Effects.

(** X5: every request that [fetch_iqa] sends is a GET of the query at some
    offset that is not negative and is below the limit, if there is one,
    with the token of the client as its only header; the requests and the
    messages that were there before are kept, and the run logs one message
    for each request, but none for the request whose response made it
    raise. *)
Theorem fetch_iqa_effects fuel self path limit page_size last_updated w :
  ∃ offsets msgs,
    sent (run_world (fetch_iqa fuel self path limit page_size last_updated w)) =
      sent w ++
      map (λ o, Request "GET"
                  (construct_path_request self ("/api/IQA?QueryName=" +:+ path)
                     page_size o last_updated)
                  None (Some [("Authorization", token self)]) None) offsets ∧
    console (run_world (fetch_iqa fuel self path limit page_size last_updated w)) =
      console w ++ msgs ∧
    Forall (λ o, 0 ≤ o ∧ within limit o) offsets ∧
    length offsets =
      (length msgs + raised (fetch_iqa fuel self path limit page_size last_updated w))%nat.
Proof.
  unfold fetch_iqa. cbn zeta.
  destruct (fetch_loop_effects self ("/api/IQA?QueryName=" +:+ path) limit page_size
              last_updated fuel initial_state w)
    as (offsets & msgs & Hsent & Hlog & Hoff & Hlen).
  by exists offsets, msgs.
Qed.


(** X7: the list that [fetch_iqa] returns is the concatenation, in order, of
    the records of the pages decoded from the first responses, all of them
    up to the response at which the loop stops: the test of the loop held
    before each of these pages was requested, and after the last of them
    either it fails, and one request was sent for each page, or the next
    response is an absorbed failure, and one request more was sent. *)
Theorem fetch_iqa_result_from_pages fuel self path limit page_size last_updated
    w result w' :
  fetch_iqa fuel self path limit page_size last_updated w = Done (Ret result) w' →
  ∃ pages, result = concat (map items pages) ∧
    (∀ i res, pages !! i = Some res →
       ∃ r, pending w i = HttpOk r ∧ decode_page r = Ret res) ∧
    (∀ i, (i < length pages)%nat →
       loop_test limit (foldl advance initial_state (take i pages)) = true) ∧
    ((loop_test limit (foldl advance initial_state pages) = false ∧
      length (sent w') = (length (sent w) + length pages)%nat) ∨
     (loop_test limit (foldl advance initial_state pages) = true ∧
      absorbed_failure (pending w (length pages)) ∧
      length (sent w') = S (length (sent w) + length pages))).
Proof.
  unfold fetch_iqa. cbn zeta.
  intros (pages & tail & -> & Hpages & Htests & _ & Hend)%fetch_loop_returns.
  exists pages. split; [done|]. split; [done|]. split; [done|].
  destruct Hend as [(? & _ & ?)|(? & ? & _ & ?)]; auto.
Qed.

(** X8: [fetch_iqa] sends no request at all exactly when the limit is set and
    is not positive; it then returns the empty list. *)
Theorem fetch_iqa_no_request fuel self path limit page_size last_updated w :
  sent (run_world (fetch_iqa (S fuel) self path limit page_size last_updated w)) = sent w ↔
  ∃ l, limit = Some l ∧ l ≤ 0 ∧
       fetch_iqa (S fuel) self path limit page_size last_updated w = Done (Ret []) w.
Proof.
  split.
  - intros Hsent. unfold fetch_iqa in *. cbn zeta in *.
    destruct (loop_test limit initial_state) eqn:Ht.
    + destruct (fetch_loop_sends_first self ("/api/IQA?QueryName=" +:+ path) limit
                  page_size last_updated fuel initial_state w Ht) as [reqs Hreqs].
      rewrite Hsent in Hreqs. apply (f_equal length) in Hreqs.
      rewrite length_app in Hreqs. cbn in Hreqs. lia.
    + rewrite fetch_loop_stop by done.
      destruct limit as [l|]; [|done]. exists l. split; [done|]. split; [|done].
      unfold loop_test in Ht. cbn in Ht. lia.
  - intros (l & -> & Hl & ->). reflexivity.
Qed.



(** ** Construction, case by case *)

Lemma init_unfold b u p w :
  b ≠ "" → u ≠ "" → p ≠ "" →
  __init__ (Config (Some b) (Some u) (Some p)) w =
  let w1 := after_call (token_request b u p) w in
  match pending w 0%nat with
  | HttpFail e => (Raise AttributeError, say (LogError ("Request failed: " +:+ e)) w1)
  | HttpOk r =>
      match response_body r with
      | Malformed msg => (Raise (JSONDecodeError msg), w1)
      | TooManyDigits msg => (Raise (ValueError msg), w1)
      | TooDeep => (Raise RecursionError, w1)
      | Json (JObj kvs) =>
          (Ret (Client b ("Bearer " +:+
                          py_str (default JNull (dict_lookup "access_token" kvs)))), w1)
      | Json _ => (Raise AttributeError, w1)
      end
  end.
Proof.
  intros Hb Hu Hp. apply String.eqb_neq in Hb, Hu, Hp.
  unfold __init__, authenticate. cbn. rewrite Hb, Hu, Hp. cbn.
  unfold request_token, make_request, requests_request, mbind, M_bind, mret, M_ret,
    log_error, raise, token_request, after_call, say.
  cbn. destruct (pending w 0%nat) as [[[j|msg|msg|]]|e]; cbn; try reflexivity.
  destruct j; reflexivity.
Qed.

Lemma init_valid_config config w o w' :
  __init__ config w = (o, w') →
  (∃ msg, o = Raise (ValueError msg) ∧ w' = w ∧
     py_not (BASE_URL config) || py_not (USERNAME config) || py_not (PWD config) = true) ∨
  (∃ b u p, config = Config (Some b) (Some u) (Some p) ∧ b ≠ "" ∧ u ≠ "" ∧ p ≠ "").
Proof.
  destruct config as [ob ou op]. unfold __init__. cbn.
  destruct (py_not ob) eqn:Hb; [intros [= <- <-]; left; eauto|].
  destruct (py_not ou) eqn:Hu; [intros [= <- <-]; left; eauto|].
  destruct (py_not op) eqn:Hp; [intros [= <- <-]; left; eauto|].
  intros _. right.
  destruct ob as [b|], ou as [u|], op as [p|]; try discriminate.
  cbn in Hb, Hu, Hp. apply String.eqb_neq in Hb, Hu, Hp. by exists b, u, p.
Qed.

(** X10: when construction succeeds, every attribute of the configuration was
    present and not empty, the client holds the base URL of the
    configuration, exactly one request was sent, the POST of the
    credentials to [{base_url}/token], nothing was logged, the response was
    a JSON object, and the token is ["Bearer "] followed by the text of its
    [access_token] ([None] when it has none). *)
Theorem init_success config w self w' :
  __init__ config w = (Ret self, w') →
  ∃ u p kvs,
    config = Config (Some (base_url self)) (Some u) (Some p) ∧
    base_url self ≠ "" ∧ u ≠ "" ∧ p ≠ "" ∧
    pending w 0%nat = ok_json (JObj kvs) ∧
    token self = "Bearer " +:+ py_str (default JNull (dict_lookup "access_token" kvs)) ∧
    sent w' = sent w ++ [token_request (base_url self) u p] ∧
    console w' = console w.
Proof.
  intros H. destruct (init_valid_config _ _ _ _ H) as [(msg & ? & _)|(b & u & p & -> & Hb & Hu & Hp)];
    [done|].
  rewrite init_unfold in H by done. cbn zeta in H.
  destruct (pending w 0%nat) as [[[j|msg|msg|]]|e]; cbn in H; try done.
  destruct j as [| | | | |kvs]; try done. injection H as <- <-.
  exists u, p, kvs. by repeat split.
Qed.


(** X12: [authenticate] sends no request exactly when the username or the
    password is empty or absent; it then raises the [ValueError]
    "Username and password are required for authentication." and leaves
    the world as it was. *)
Theorem authenticate_value_error base_url username password w o w' :
  authenticate base_url username password w = (o, w') →
  (sent w' = sent w ↔ py_not username || py_not password = true) ∧
  (py_not username || py_not password = true →
   o = Raise (ValueError "Username and password are required for authentication.") ∧
   w' = w).
Proof.
  unfold authenticate. destruct (py_not username || py_not password) eqn:Hc.
  - intros [= <- <-]. done.
  - intros H. split; [|done]. split; [|done]. intros Hsent. exfalso.
    assert (Hlen : length (sent w') = S (length (sent w))).
    { revert H.
      unfold request_token, make_request, requests_request, mbind, M_bind, mret, M_ret,
        log_error, raise.
      cbn. destruct (pending w 0%nat) as [[[j|err|err|]]|e]; cbn;
        try (intros [= _ <-]; cbn; rewrite length_app; cbn; lia).
      destruct j; cbn; intros [= _ <-]; cbn; rewrite length_app; cbn; lia. }
    rewrite Hsent in Hlen. lia.
Qed.

(** ** The log and the limit *)

Lemma progress_log_lookup pages : ∀ offset i res,
  pages !! i = Some res →
  progress_log offset pages !! i =
  Some (LogInfo ("Retrieving: " +:+
                 pretty (offset + Z.of_nat (length (concat (map items (take (S i) pages)))))
                 +:+ " of " +:+ py_str (count res))).
Proof.
  induction pages as [|p pages IH]; intros offset i res Hi; [done|].
  destruct i as [|i]; cbn in Hi.
  - injection Hi as ->. cbn. rewrite app_nil_r. reflexivity.
  - cbn [progress_log]. cbn zeta. cbn [lookup list_lookup].
    rewrite (IH _ i res Hi). cbn [take map concat]. rewrite length_app.
    by rewrite Nat2Z.inj_add, Z.add_assoc.
Qed.

(** X14: when [fetch_iqa] returns, what it has logged is, after what was there
    before, one progress message for each page that went into the result,
    the pages decoded from the first responses, each message giving the
    number of records fetched up to and including its page and the
    [TotalCount] of its page; and then nothing more when the loop ended by
    its test, and exactly one error when it ended by a break. *)
Theorem fetch_iqa_progress_log fuel self path limit page_size last_updated w result w' :
  fetch_iqa fuel self path limit page_size last_updated w = Done (Ret result) w' →
  ∃ pages tail,
    result = concat (map items pages) ∧
    (∀ i res, pages !! i = Some res →
       ∃ r kvs, pending w i = HttpOk r ∧ decode_page r = Ret res ∧
         response_body r = Json (JObj kvs) ∧
         count res = default (JNum 0) (dict_lookup "TotalCount" kvs)) ∧
    console w' = console w ++ progress_log 0 pages ++ tail ∧
    (∀ i res, pages !! i = Some res →
       progress_log 0 pages !! i =
       Some (LogInfo ("Retrieving: " +:+
                      pretty (Z.of_nat (length (concat (map items (take (S i) pages)))))
                      +:+ " of " +:+ py_str (count res)))) ∧
    ((loop_test limit (foldl advance initial_state pages) = false ∧ tail = []) ∨
     (loop_test limit (foldl advance initial_state pages) = true ∧
      absorbed_failure (pending w (length pages)) ∧ ∃ msg, tail = [LogError msg])).
Proof.
  unfold fetch_iqa. cbn zeta.
  intros (pages & tail & -> & Hpages & _ & Hlog & Hend)%fetch_loop_returns.
  exists pages, tail. split; [done|]. split; [|split; [done|split]].
  - intros i res Hi. destruct (Hpages i res Hi) as (r & Hr & Hd).
    destruct (decode_page_inv _ _ Hd) as (kvs & Hb & _ & _ & Hc). eauto 7.
  - intros i res Hi. by apply progress_log_lookup.
  - destruct Hend as [(? & ? & _)|(? & ? & ? & _)]; auto.
Qed.

Lemma fetch_loop_reaches_limit self iqa_path limit page_size last_updated :
  ∀ fuel st w result w',
  (∀ n, ∃ r res, pending w n = HttpOk r ∧ decode_page r = Ret res ∧
                 truthy (has_next res) = true) →
  truthy (ls_has_next st) = true →
  ls_offset st = Z.of_nat (length (ls_items st)) →
  fetch_loop fuel self iqa_path limit page_size last_updated st w = Done (Ret result) w' →
  ∃ l, limit = Some l ∧ l ≤ Z.of_nat (length result).
Proof.
  induction fuel as [|fuel IH]; intros st w result w' Hpages Hnext Hoff.
  { cbn [fetch_loop]. destruct (loop_test limit st) eqn:Ht; [done|].
    intros [= <- <-]. unfold loop_test in Ht. rewrite Hnext in Ht. cbn in Ht.
    destruct limit as [l|]; [|done]. exists l. split; [done|]. lia. }
  rewrite fetch_loop_S. destruct (loop_test limit st) eqn:Ht.
  2:{ intros [= <- <-]. unfold loop_test in Ht. rewrite Hnext in Ht. cbn in Ht.
      destruct limit as [l|]; [|done]. exists l. split; [done|]. lia. }
  rewrite loop_body_unfold. cbn zeta.
  destruct (Hpages 0%nat) as (r & res & -> & -> & Hn).
  apply IH.
  - intros n. apply (Hpages (S n)).
  - exact Hn.
  - cbn. rewrite length_app. lia.
Qed.

(** X15: while the server keeps sending pages that decode and say that there
    is more, [fetch_iqa] returns only when a limit is set and at least as
    many records as the limit have been fetched. *)
Theorem fetch_iqa_reaches_limit fuel self path limit page_size last_updated w result w' :
  (∀ n, ∃ r res, pending w n = HttpOk r ∧ decode_page r = Ret res ∧
                 truthy (has_next res) = true) →
  fetch_iqa fuel self path limit page_size last_updated w = Done (Ret result) w' →
  ∃ l, limit = Some l ∧ l ≤ Z.of_nat (length result).
Proof.
  intros Hpages. unfold fetch_iqa. cbn zeta.
  by apply fetch_loop_reaches_limit.
Qed.


(** X16: a JSON object without [Items], or whose [Items] has no [$values], is
    no error: it decodes to a page without records, with [HasNext] false
    and [TotalCount] 0 where they are missing too. *)
Theorem decode_page_missing_items kvs :
  dict_lookup "Items" kvs = None ∨
  (∃ ikvs, dict_lookup "Items" kvs = Some (JObj ikvs) ∧
           dict_lookup "$values" ikvs = None) →
  decode_page (Response (Json (JObj kvs))) =
  Ret (Page [] (default (JBool false) (dict_lookup "HasNext" kvs))
         (default (JNum 0) (dict_lookup "TotalCount" kvs))).
Proof.
  intros H. apply decode_page_obj. unfold simplify_data. cbn.
  destruct H as [-> | (ikvs & -> & Hv)]; cbn; [done|]. by rewrite Hv.
Qed.

(** X13: construction, then a fetch: the requests are the POST of the
    credentials followed by GETs that all carry, as [Authorization], the
    token made from the [access_token] of the first response; and the list
    that the fetch returns is made of the pages decoded from the responses
    that follow the first. *)
Theorem init_then_fetch_iqa config w self w1 fuel path limit page_size last_updated :
  __init__ config w = (Ret self, w1) →
  ∃ u p kvs offsets,
    pending w 0%nat = ok_json (JObj kvs) ∧
    sent (run_world (fetch_iqa fuel self path limit page_size last_updated w1)) =
      sent w ++ token_request (base_url self) u p ::
      map (λ o, Request "GET"
                  (construct_path_request self ("/api/IQA?QueryName=" +:+ path)
                     page_size o last_updated)
                  None
                  (Some [("Authorization",
                          "Bearer " +:+
                          py_str (default JNull (dict_lookup "access_token" kvs)))])
                  None) offsets ∧
    ∀ result w2,
      fetch_iqa fuel self path limit page_size last_updated w1 = Done (Ret result) w2 →
      ∃ pages, result = concat (map items pages) ∧
        ∀ i res, pages !! i = Some res →
          ∃ r, pending w (S i) = HttpOk r ∧ decode_page r = Ret res.
Proof.
  intros Hinit.
  destruct (init_valid_config _ _ _ _ Hinit)
    as [(msg & ? & _)|(b & u & p & -> & Hb & Hu & Hp)]; [done|].
  rewrite init_unfold in Hinit by done. cbn zeta in Hinit.
  destruct (pending w 0%nat) as [[[j|msg|msg|]]|e] eqn:Hw; cbn in Hinit; try done.
  destruct j as [| | | | |kvs]; try done. injection Hinit as <- <-.
  destruct (fetch_loop_effects
              (Client b ("Bearer " +:+ py_str (default JNull (dict_lookup "access_token" kvs))))
              ("/api/IQA?QueryName=" +:+ path) limit page_size last_updated fuel
              initial_state (after_call (token_request b u p) w))
    as (offsets & msgs & Hreqs & _).
  exists u, p, kvs, offsets. split; [done|]. split.
  - unfold fetch_iqa. cbn zeta. rewrite Hreqs. cbn. by rewrite <- app_assoc.
  - intros result w2 Hrun. unfold fetch_iqa in Hrun. cbn zeta in Hrun.
    apply fetch_loop_sound in Hrun as (pages & -> & Hpages & _).
    exists pages. split; [done|]. intros i res Hi.
    exact (Hpages i res Hi).
Qed.

End Client.

(** ** The theorems at concrete configurations, servers and rows *)

Lemma init_missing_field_witness :
  let config := Config (Some "https://demo123.imiscloud.com") None (Some "secret") in
  py_not (BASE_URL config) || py_not (USERNAME config) || py_not (PWD config) = true ∧
  ∃ f msg, py_not (field_of config f) = true ∧
    String.prefix (field_label f +:+ " is required") msg = true ∧
    __init__ demo_repr config two_pages = (Raise (ValueError msg), two_pages).
Proof.
  split; [reflexivity|].
  apply (init_missing_field demo_repr
           (Config (Some "https://demo123.imiscloud.com") None (Some "secret")) two_pages).
  reflexivity.
Defined.

Lemma init_token_witness :
  let w := world_of [ok_json (JObj [("access_token", JStr "xyz")])] in
  pending w 0%nat = HttpOk (Response (Json (JObj [("access_token", JStr "xyz")]))) ∧
  ∃ self w', __init__ demo_repr demo_config w = (Ret self, w') ∧
    token self = "Bearer xyz".
Proof.
  split; [reflexivity|].
  destruct (init_token demo_repr demo_config
              (world_of [ok_json (JObj [("access_token", JStr "xyz")])])
              [("access_token", JStr "xyz")] "xyz")
    as (self & w' & Hinit & Htok & _); try reflexivity.
  exists self, w'. split; [exact Hinit | exact Htok].
Defined.

Lemma flatten_record_pairs_witness :
  Forall2 name_value_pair
    [pair_of "A" (JStr "x"); pair_of "B" (JObj [("$value", JNum 5)])]
    [("A", JStr "x"); ("B", JObj [("$value", JNum 5)])] ∧
  ∃ rec, flatten_record row_AB = Ret rec ∧
    rec !! KStr "A" = Some (JStr "x") ∧ rec !! KStr "B" = Some (JNum 5).
Proof.
  assert (Hpairs : Forall2 name_value_pair
    [pair_of "A" (JStr "x"); pair_of "B" (JObj [("$value", JNum 5)])]
    [("A", JStr "x"); ("B", JObj [("$value", JNum 5)])]).
  { repeat constructor; eexists; (split; [reflexivity|]); split; reflexivity. }
  split; [exact Hpairs|].
  destruct (flatten_record_pairs row_AB
              (JObj [("$values",
                      JArr [pair_of "A" (JStr "x"); pair_of "B" (JObj [("$value", JNum 5)])])])
              [pair_of "A" (JStr "x"); pair_of "B" (JObj [("$value", JNum 5)])]
              [("A", JStr "x"); ("B", JObj [("$value", JNum 5)])]
              eq_refl eq_refl Hpairs)
    as [(rec & Hrec & Hlast & _) _].
  exists rec. split; [exact Hrec|]. split.
  - apply (Hlast 0%nat "A" (JStr "x") eq_refl).
    intros [|[|j]] v' Hj; [lia|discriminate Hj|discriminate Hj].
  - apply (Hlast 1%nat "B" (JObj [("$value", JNum 5)]) eq_refl).
    intros [|[|j]] v' Hj; [lia|lia|discriminate Hj].
Defined.

Lemma fetch_iqa_pagination_witness :
  loop_test None initial_state = true ∧
  ∃ st' w',
    fetch_loop demo_repr 3 demo_client "/api/IQA?QueryName=$/Q" None 200 None
      initial_state two_pages =
    fetch_loop demo_repr 2 demo_client "/api/IQA?QueryName=$/Q" None 200 None st' w' ∧
    ls_offset st' = 2 ∧ ls_has_next st' = JBool true ∧
    console w' = [LogInfo "Retrieving: 2 of 3"].
Proof.
  split; [reflexivity|].
  destruct (fetch_iqa_pagination demo_repr demo_client "/api/IQA?QueryName=$/Q" None 200
              None 2 initial_state two_pages
              (Response (Json (page_of [row_AB; row_C 1] true 3)))
              (Page [rec_AB; rec_C 1] (JBool true) (JNum 3))
              eq_refl eq_refl eq_refl)
    as (_ & _ & _ & _ & _ & _ & st' & w' & kvs & Hrun & _ & Hoff & Hnext & _ & _ & _ & _ & _ & Hlog).
  exists st', w'. split; [exact Hrun|]. split; [exact Hoff|]. split; [exact Hnext|].
  rewrite Hlog, Hoff. reflexivity.
Defined.

Lemma fetch_iqa_one_and_two_pages_witness :
  (∃ w', fetch_iqa demo_repr 1 demo_client "$/Q" None 200 None one_page =
           Done (Ret [rec_AB; rec_C 1]) w' ∧
         length (sent w') = 1%nat) ∧
  (∃ w', fetch_iqa demo_repr 2 demo_client "$/Q" (Some 3) 200 None two_pages =
           Done (Ret [rec_AB; rec_C 1; rec_C 2]) w' ∧
         length (sent w') = 2%nat ∧
         console w' = [LogInfo "Retrieving: 2 of 3"; LogInfo "Retrieving: 3 of 3"]).
Proof.
  split.
  - destruct (fetch_iqa_one_and_two_pages demo_repr 0 demo_client "$/Q" None 200 None one_page)
      as [Hone _].
    destruct (Hone _ [rec_AB; rec_C 1] I eq_refl eq_refl eq_refl) as (w' & Hrun & Hsent).
    exists w'. split; [exact Hrun|]. rewrite Hsent. reflexivity.
  - destruct (fetch_iqa_one_and_two_pages demo_repr 0 demo_client "$/Q" (Some 3) 200 None two_pages)
      as [_ Htwo].
    destruct (Htwo _ _ [rec_AB; rec_C 1] [rec_C 2] ltac:(cbn; lia)
                eq_refl eq_refl eq_refl eq_refl eq_refl eq_refl eq_refl eq_refl)
      as (w' & Hrun & Hsent & Hlog).
    exists w'. split; [exact Hrun|]. split; [rewrite Hsent; reflexivity|].
    rewrite Hlog. reflexivity.
Defined.


Lemma fetch_iqa_limit_overshoot_witness :
  0 < 3 + 2 ∧
  ∃ result w',
    fetch_iqa demo_repr 5 demo_client "$/Q" (Some 3) 2 None three_full_pages =
      Done (Ret result) w' ∧
    length result = 4%nat ∧ Z.of_nat (length result) < 3 + 2.
Proof.
  split; [lia|].
  assert (Hpages : ∀ n r res, pending three_full_pages n = HttpOk r →
            decode_page r = Ret res → Z.of_nat (length (items res)) ≤ 2).
  { intros [|[|[|[|n]]]] r res Hr Hd; cbn in Hr; unfold ok_json in Hr;
      try discriminate Hr; injection Hr as <-; vm_compute in Hd; injection Hd as <-; cbn; lia. }
  pose proof (fetch_iqa_limit_overshoot demo_repr 5 demo_client "$/Q" 3 2 None
                three_full_pages ltac:(lia) Hpages) as Hbound.
  destruct (fetch_iqa demo_repr 5 demo_client "$/Q" (Some 3) 2 None three_full_pages)
    as [[result|e] w'|st w'] eqn:Hrun; try discriminate Hrun.
  exists result, w'. split; [reflexivity|]. split; [|exact Hbound].
  injection Hrun as <- _. reflexivity.
Defined.

Lemma fetch_iqa_deterministic_witness :
  let w2 := World (pending two_pages)
              [Request "POST" "https://demo123.imiscloud.com/token" None None None]
              [LogInfo "Retrieving: 3 of 3"] in
  (∀ n, pending two_pages n = pending w2 n) ∧
  (∃ w1', fetch_iqa demo_repr 2 demo_client "$/Q" None 200 None two_pages =
            Done (Ret [rec_AB; rec_C 1; rec_C 2]) w1') ∧
  (∃ w2', fetch_iqa demo_repr 7 demo_client "$/Q" None 200 None w2 =
            Done (Ret [rec_AB; rec_C 1; rec_C 2]) w2').
Proof.
  split; [reflexivity|]. split; [eexists; reflexivity|].
  refine (proj1 (fetch_iqa_deterministic demo_repr 2 demo_client "$/Q" None 200 None
                   two_pages
                   (World (pending two_pages)
                      [Request "POST" "https://demo123.imiscloud.com/token" None None None]
                      [LogInfo "Retrieving: 3 of 3"])
                   (Ret [rec_AB; rec_C 1; rec_C 2]) _ (λ n, eq_refl) eq_refl)
                7%nat _).
  lia.
Defined.


Lemma construct_path_request_offset_inj_witness :
  (0 : Z) ≠ 200 ∧
  construct_path_request demo_client "/api/IQA?QueryName=$/Q" 200 0 None ≠
  construct_path_request demo_client "/api/IQA?QueryName=$/Q" 200 200 None.
Proof.
  split; [lia|].
  apply (construct_path_request_offset_inj demo_client "/api/IQA?QueryName=$/Q" 200 None 0 200).
  lia.
Defined.

Lemma simplify_data_rows_witness :
  simplify_data (page_of [row_AB; row_C 1] true 3) = Ret [rec_AB; rec_C 1] ∧
  length [rec_AB; rec_C 1] = length [row_AB; row_C 1] ∧
  ∀ i row, [row_AB; row_C 1] !! i = Some row →
    ∃ rec, [rec_AB; rec_C 1] !! i = Some rec ∧ flatten_record row = Ret rec.
Proof.
  split; [reflexivity|].
  apply (simplify_data_rows
           [("HasNext", JBool true); ("TotalCount", JNum 3);
            ("Items", JObj [("$values", JArr [row_AB; row_C 1])])]
           [("$values", JArr [row_AB; row_C 1])]
           [row_AB; row_C 1] [rec_AB; rec_C 1]); reflexivity.
Defined.

Lemma flatten_record_missing_value_witness :
  Forall2 name_optional_value_pair
    [JObj [("Name", JStr "A")]; pair_of "B" (JNum 1)] [("A", None); ("B", Some (JNum 1))] ∧
  ∃ rec, flatten_record (row_of [JObj [("Name", JStr "A")]; pair_of "B" (JNum 1)]) = Ret rec ∧
         rec !! KStr "A" = Some JNull.
Proof.
  assert (Hpairs : Forall2 name_optional_value_pair
    [JObj [("Name", JStr "A")]; pair_of "B" (JNum 1)] [("A", None); ("B", Some (JNum 1))]).
  { repeat constructor; eexists; (split; [reflexivity|]); split; reflexivity. }
  split; [exact Hpairs|].
  destruct (flatten_record_missing_value
              (row_of [JObj [("Name", JStr "A")]; pair_of "B" (JNum 1)])
              (JObj [("$values", JArr [JObj [("Name", JStr "A")]; pair_of "B" (JNum 1)])])
              [JObj [("Name", JStr "A")]; pair_of "B" (JNum 1)]
              [("A", None); ("B", Some (JNum 1))] eq_refl eq_refl Hpairs)
    as (rec & Hrec & Hlast).
  exists rec. split; [exact Hrec|].
  apply (Hlast 0%nat "A" None eq_refl).
  intros [|[|j]] ov' Hj; [lia|discriminate Hj|discriminate Hj].
Defined.




Lemma fetch_iqa_result_from_pages_witness :
  ∃ w', fetch_iqa demo_repr 5 demo_client "$/Q" None 200 None two_pages =
          Done (Ret [rec_AB; rec_C 1; rec_C 2]) w' ∧
    ∃ pages, [rec_AB; rec_C 1; rec_C 2] = concat (map items pages) ∧
      (∀ i res, pages !! i = Some res →
         ∃ r, pending two_pages i = HttpOk r ∧ decode_page r = Ret res) ∧
      (∀ i, (i < length pages)%nat →
         loop_test None (foldl advance initial_state (take i pages)) = true).
Proof.
  eexists. split; [reflexivity|].
  destruct (fetch_iqa_result_from_pages demo_repr 5 demo_client "$/Q" None 200 None
              two_pages [rec_AB; rec_C 1; rec_C 2] _ eq_refl)
    as (pages & Hres & Hpages & Htests & _).
  exists pages. split; [exact Hres|]. split; [exact Hpages | exact Htests].
Defined.

Lemma fetch_iqa_no_request_witness :
  fetch_iqa demo_repr 1 demo_client "$/Q" (Some 0) 200 None two_pages =
    Done (Ret []) two_pages ∧
  sent (run_world (fetch_iqa demo_repr 1 demo_client "$/Q" (Some 0) 200 None two_pages)) =
    sent two_pages.
Proof.
  split; [reflexivity|].
  apply (fetch_iqa_no_request demo_repr 0 demo_client "$/Q" (Some 0) 200 None two_pages).
  exists 0. split; [reflexivity|]. split; [lia|reflexivity].
Defined.


Lemma init_success_witness :
  ∃ self w', __init__ demo_repr demo_config session = (Ret self, w') ∧
    token self = "Bearer xyz" ∧ length (sent w') = 1%nat ∧ console w' = [].
Proof.
  eexists _, _. split; [lazy; reflexivity|].
  destruct (init_success demo_repr demo_config session _ _ eq_refl)
    as (u & p & kvs & _ & _ & _ & _ & _ & _ & Hsent & Hlog).
  split; [reflexivity|]. split; [|exact Hlog].
  apply (f_equal length) in Hsent. exact Hsent.
Defined.


Lemma authenticate_value_error_witness :
  py_not (Some "") || py_not (Some "secret") = true ∧
  authenticate demo_repr "https://demo123.imiscloud.com" (Some "") (Some "secret") two_pages =
    (Raise (ValueError "Username and password are required for authentication."),
     two_pages) ∧
  ∃ o w', authenticate demo_repr "https://demo123.imiscloud.com" (Some "user")
            (Some "secret") session = (o, w') ∧ sent w' ≠ sent session.
Proof.
  split; [reflexivity|]. split; [reflexivity|].
  eexists _, _. split; [lazy; reflexivity|].
  destruct (authenticate_value_error demo_repr "https://demo123.imiscloud.com"
              (Some "user") (Some "secret") session _ _ eq_refl) as [[Hnone _] _].
  intros Hsent. apply Hnone in Hsent. discriminate Hsent.
Defined.

Lemma init_then_fetch_iqa_witness :
  ∃ self w1,
    __init__ demo_repr demo_config session = (Ret self, w1) ∧
    ∃ result w2,
      fetch_iqa demo_repr 5 self "$/Q" None 200 None w1 = Done (Ret result) w2 ∧
      result = [rec_AB; rec_C 1; rec_C 2] ∧
      ∃ pages, result = concat (map items pages) ∧
        ∀ i res, pages !! i = Some res →
          ∃ r, pending session (S i) = HttpOk r ∧ decode_page r = Ret res.
Proof.
  eexists _, _. split; [lazy; reflexivity|].
  eexists _, _. split; [reflexivity|]. split; [reflexivity|].
  destruct (init_then_fetch_iqa demo_repr demo_config session _ _ 5 "$/Q" None 200 None
              eq_refl)
    as (u & p & kvs & offsets & _ & _ & Hres).
  exact (Hres _ _ eq_refl).
Defined.

Lemma fetch_iqa_progress_log_witness :
  ∃ w', fetch_iqa demo_repr 5 demo_client "$/Q" None 200 None page_then_failure =
          Done (Ret [rec_AB; rec_C 1]) w' ∧
    ∃ pages tail,
      [rec_AB; rec_C 1] = concat (map items pages) ∧
      console w' = progress_log demo_repr 0 pages ++ tail ∧
      (∀ i res, pages !! i = Some res →
         ∃ r, pending page_then_failure i = HttpOk r ∧ decode_page r = Ret res).
Proof.
  eexists. split; [reflexivity|].
  destruct (fetch_iqa_progress_log demo_repr 5 demo_client "$/Q" None 200 None
              page_then_failure [rec_AB; rec_C 1] _ eq_refl)
    as (pages & tail & Hres & Hpages & Hlog & _).
  exists pages, tail. split; [exact Hres|]. split; [exact Hlog|].
  intros i res Hi. destruct (Hpages i res Hi) as (r & kvs & Hr & Hd & _).
  exists r. split; [exact Hr | exact Hd].
Defined.

Lemma fetch_iqa_reaches_limit_witness :
  let w := World (λ _, ok_json (page_of [row_C 1; row_C 2] true 9)) [] [] in
  ∃ result w',
    fetch_iqa demo_repr 5 demo_client "$/Q" (Some 3) 2 None w = Done (Ret result) w' ∧
    length result = 4%nat ∧
    ∃ l, Some 3 = Some l ∧ l ≤ Z.of_nat (length result).
Proof.
  eexists _, _. split; [reflexivity|]. split; [reflexivity|].
  eapply (fetch_iqa_reaches_limit demo_repr 5 demo_client "$/Q" (Some 3) 2 None
            (World (λ _, ok_json (page_of [row_C 1; row_C 2] true 9)) [] [])).
  - intros n. eexists _, _. split; [reflexivity|]. split; reflexivity.
  - reflexivity.
Defined.

Lemma decode_page_missing_items_witness :
  dict_lookup "Items" [("TotalCount", JNum 0)] = None ∧
  decode_page (Response (Json (JObj [("TotalCount", JNum 0)]))) =
  Ret (Page [] (JBool false) (JNum 0)).
Proof.
  split; [reflexivity|].
  apply (decode_page_missing_items [("TotalCount", JNum 0)]). left. reflexivity.
Defined.

(** ** Where two sentences of the specification fail *)


